(** * gompd: the MPD client of [mpd/client.go], embedded in Rocq

    The client is a thin layer over Go's [net/textproto]: it writes one
    command line, brackets the response with [StartResponse]/[EndResponse]
    and decodes the response lines either into one attribute map
    ([readAttrs]) or into a slice of attribute maps ([readPlaylist]).

    Layout of this file:
    - [Go]: the values of the Go language the client manipulates (errors,
      panics, strings with byte indices, slices with a capacity);
    - [textproto]: the connection object the client holds, with its input
      lines, its write behaviour and its response sequencer;
    - [mpd]: the functions of [client.go], one definition per function;
    - the properties proved about them. *)

From Stdlib Require Import ZArith NArith String Ascii List Lia.
From stdpp Require Import base strings gmap list.

Local Open Scope Z_scope.

(* ===================================================================== *)
(** ** Go values                                                          *)
(* ===================================================================== *)

Module Go.

(** [os.Error] is an interface; the dynamic types that can reach the
    client are listed here.  The nil error is [None : option error]. *)
Inductive errno := EINVAL | ERANGE.

Inductive error :=
| EOF                                      (* os.EOF *)
| NewError (msg : string)                  (* os.NewError(msg) *)
| ProtocolError (msg : string)             (* textproto.ProtocolError(msg) *)
| NumError (num : string) (e : errno)      (* &strconv.NumError{num, e} *)
| OpError (msg : string).                  (* a failure of the network stack *)

(** The dynamic type of an error value, which is what a caller can
    switch on without looking at the message text. *)
Inductive error_kind := KEOF | KErrorString | KProtocol | KNum | KOp.

Definition kind_of (e : error) : error_kind :=
  match e with
  | EOF => KEOF
  | NewError _ => KErrorString
  | ProtocolError _ => KProtocol
  | NumError _ _ => KNum
  | OpError _ => KOp
  end.

(** The message an error prints ([err.String()]) for the two kinds the
    client builds itself. *)
Definition message (e : error) : option string :=
  match e with
  | NewError m | ProtocolError m => Some m
  | _ => None
  end.

(** Run-time panics. *)
Inductive panic :=
| NilDereference        (* invalid memory address or nil pointer dereference *)
| SliceBounds           (* slice bounds out of range *)
| IndexRange            (* index out of range *)
| NilMapAssign          (* assignment to entry in nil map *)
| OutOfSync.            (* panic("out of sync") of the textproto sequencer *)

(** What a call does: it returns, it panics, or it waits for ever (a
    receive on a channel nobody sends on). *)
Inductive outcome (A : Type) :=
| Ret (a : A)
| Panic (p : panic)
| Block.
Arguments Ret {A} a.
Arguments Panic {A} p.
Arguments Block {A}.

(** *** Strings: byte sequences indexed by [int] *)

Definition len (s : string) : Z := Z.of_nat (String.length s).

(** [strings.HasPrefix(s, prefix)]. *)
Definition HasPrefix (s pre : string) : bool := String.prefix pre s.

(** [strings.Index(s, sep)]: byte index of the first [sep] in [s], or -1. *)
Definition Index (s sep : string) : Z :=
  match String.index 0 sep s with
  | Some n => Z.of_nat n
  | None => -1
  end.

(** [s[lo:hi]] on a string; [None] stands for the bounds panic. *)
Definition slice_str (s : string) (lo hi : Z) : option string :=
  if (0 <=? lo) && (lo <=? hi) && (hi <=? len s)
  then Some (String.substring (Z.to_nat lo) (Z.to_nat (hi - lo)) s)
  else None.

(** *** Maps

    [type Attrs map[string]string].  A Go map value is a reference that
    may be nil; [None] is the nil map and [Some m] a map with contents
    [m].  The client never shares a map between two owners before it
    stops writing to it, so contents are carried by value. *)
Abbreviation Attrs := (option (gmap string string)).

(** *** Slices of [Attrs]

    A slice is a window of [length elems] elements on a backing array
    that has room for [cap] elements from the window's start.  The
    slots of the array behind the window are zero ([None], the nil map)
    here, because every array comes fresh from [append] and is only
    written inside the window.  The nil slice is [None : option slice]. *)
Record slice := Slice { elems : list Attrs; cap : nat }.

(** [append(s, x)] for one element.  With room left the element goes in
    place.  Otherwise the runtime's [growslice] allocates a new array:
    starting from the old capacity it doubles it (adds a quarter from
    1024 elements on) until the new length fits, and a zero capacity
    becomes the needed length.  For one more element that loop runs
    once. *)
Definition append1 (s : slice) (x : Attrs) : slice :=
  let n := length (elems s) in
  if (n <? cap s)%nat then Slice (elems s ++ [x]) (cap s)
  else
    let newcap :=
      if (cap s =? 0)%nat then S n
      else if (n <? 1024)%nat then (cap s + cap s)%nat
      else (cap s + Nat.div (cap s) 4)%nat in
    Slice (elems s ++ [x]) newcap.

(** [s[len(s)-1][key] = v]. *)
Definition assign_last (s : slice) (key v : string) : outcome slice :=
  let i := (length (elems s) - 1)%nat in
  match elems s !! i with
  | None => Panic IndexRange
  | Some None => Panic NilMapAssign
  | Some (Some m) => Ret (Slice (<[i := Some (<[key := v]> m)]> (elems s)) (cap s))
  end.

(** [s[lo:hi]] on a slice.  The upper bound is checked against the
    capacity, not the length: the window may be widened over the zero
    slots behind it. *)
Definition reslice (s : option slice) (lo hi : Z) : option (option slice) :=
  match s with
  | None => if (lo =? 0) && (hi =? 0) then Some None else None
  | Some s =>
      if (0 <=? lo) && (lo <=? hi) && (hi <=? Z.of_nat (cap s))
      then
        let array := elems s ++ replicate (cap s - length (elems s)) None in
        Some (Some (Slice (take (Z.to_nat (hi - lo)) (drop (Z.to_nat lo) array))
                          (cap s - Z.to_nat lo)))
      else None
  end.

End Go.

(* ===================================================================== *)
(** ** net/textproto: the connection the client holds                     *)
(* ===================================================================== *)

Module textproto.
Import Go.

(** An argument of a formatted command line ([%d] or [%q]). *)
Inductive arg := ArgInt (n : Z) | ArgString (s : string).

(** What happens on the byte stream, oldest first.  A written line is
    recorded as the format and the arguments handed to [PrintfLine]. *)
Inductive event :=
| Sent (format : string) (args : list arg)
| Received (line : string)
| Closed.

(** [uint] has 32 bits in the Go releases that have [os.Error]. *)
Definition uint_succ (n : N) : N := ((n + 1) mod 2 ^ 32)%N.

(** A [*textproto.Conn] as the client sees it:
    - [incoming]: the lines the server delivers, in order; once they are
      used up [ReadLine] reports [os.EOF];
    - [write_err]: the error every write reports when the stream is broken;
    - [close_err]: the error closing the stream reports;
    - [next_id]: the counter of [Pipeline.Next];
    - [resp_id]: the id the response sequencer lets through.
    The request sequencer is started and ended inside [Cmd] for the id just
    drawn and is therefore always in step with [next_id] between calls. *)
Record Conn := mkConn {
  incoming : list string;
  write_err : option error;
  close_err : option error;
  next_id : N;
  resp_id : N
}.

Definition set_incoming (cn : Conn) (l : list string) : Conn :=
  mkConn l (write_err cn) (close_err cn) (next_id cn) (resp_id cn).
Definition set_next_id (cn : Conn) (n : N) : Conn :=
  mkConn (incoming cn) (write_err cn) (close_err cn) n (resp_id cn).
Definition set_resp_id (cn : Conn) (n : N) : Conn :=
  mkConn (incoming cn) (write_err cn) (close_err cn) (next_id cn) n.

(** The state a method of the connection works on: the object and the
    history of its stream. *)
Definition st : Type := Conn * list event.

(** [c.ReadLine()]. *)
Definition ReadLine (s : st) : (string * option error) * st :=
  let '(cn, ev) := s in
  match incoming cn with
  | [] => (("", Some EOF), s)
  | line :: rest => ((line, None), (set_incoming cn rest, ev ++ [Received line]))
  end.

(** [c.PrintfLine(format, args...)]. *)
Definition PrintfLine (format : string) (args : list arg) (s : st)
  : option error * st :=
  let '(cn, ev) := s in
  match write_err cn with
  | Some e => (Some e, s)
  | None => (None, (cn, ev ++ [Sent format args]))
  end.

(** [c.Cmd(format, args...)]: draw an id, write the line inside the
    request bracket of that id, hand the id back (0 with the error when
    the write fails). *)
Definition Cmd (format : string) (args : list arg) (s : st)
  : (N * option error) * st :=
  let '(cn, ev) := s in
  let id := next_id cn in
  let '(err, s1) := PrintfLine format args (set_next_id cn (uint_succ id), ev) in
  match err with
  | Some e => ((0%N, Some e), s1)
  | None => ((id, None), s1)
  end.

(** [c.StartResponse(id)] is [sequencer.Start] on the response sequencer:
    it returns at once when the sequencer's current id is [id], and
    otherwise receives on a fresh channel that only [End(id-1)] sends on.
    The client runs in one goroutine, so in the second case nobody is left
    to call [EndResponse]: the call waits for ever. *)
Definition StartResponse (id : N) (s : st) : outcome unit * st :=
  if (resp_id (fst s) =? id)%N then (Ret tt, s) else (Block, s).

(** [c.EndResponse(id)] is [sequencer.End]: a run-time panic when [id] is
    not the current id, and otherwise the turn of [id+1]. *)
Definition EndResponse (id : N) (s : st) : outcome unit * st :=
  let '(cn, ev) := s in
  if (resp_id cn =? id)%N
  then (Ret tt, (set_resp_id cn (uint_succ id), ev))
  else (Panic OutOfSync, s).

(** [c.Close()]. *)
Definition Close (s : st) : option error * st :=
  let '(cn, ev) := s in (close_err cn, (cn, ev ++ [Closed])).

(** What [textproto.Dial(network, addr)] finds: a fresh connection or
    the error of the dial. *)
Definition Network : Type := string -> string -> Conn + error.

(** The loop [for { line, err := c.ReadLine(); if err != nil { return
    on_err(err) }; body }].  The body either goes round again with a new
    loop state or leaves the function. *)
Inductive flow (S R : Type) :=
| Continue (s : S)
| Leave (o : outcome R).
Arguments Continue {S R} s.
Arguments Leave {S R} o.

Fixpoint for_ReadLine {S R : Type} (on_err : error -> R)
    (body : string -> S -> flow S R) (s : S)
    (lines : list string) (ev : list event)
  : outcome R * (list string * list event) :=
  match lines with
  | [] => (Ret (on_err EOF), ([], ev))
  | line :: rest =>
      match body line s with
      | Continue s' => for_ReadLine on_err body s' rest (ev ++ [Received line])
      | Leave o => (o, (rest, ev ++ [Received line]))
      end
  end.

End textproto.

(* ===================================================================== *)
(** ** package mpd                                                        *)
(* ===================================================================== *)

Module mpd.
Import Go.
Export textproto(arg(..), event(..)).

(** [type Client struct { text *textproto.Conn }]; a nil pointer is [None]. *)
Record Client := mkClient { text : option textproto.Conn }.

(** A method runs on its receiver and on the history of the stream, which
    stays when the client drops the connection. *)
Record World := mkWorld { self : Client; wire : list event }.

Definition connected (cn : textproto.Conn) (ev : list event) : World :=
  mkWorld (mkClient (Some cn)) ev.
Definition closed (ev : list event) : World :=
  mkWorld (mkClient None) ev.

Definition M (A : Type) : Type := World -> outcome A * World.

Definition ret {A} (a : A) : M A := fun w => (Ret a, w).

Definition bind {A B} (m : M A) (k : A -> M B) : M B :=
  fun w =>
    match m w with
    | (Ret a, w') => k a w'
    | (Panic p, w') => (Panic p, w')
    | (Block, w') => (Block, w')
    end.

Notation "'let*' p := m 'in' k" := (bind m (fun p => k))
  (at level 10, p pattern, m at level 100, k at level 200, only parsing).
Notation "m ;; k" := (bind m (fun _ => k))
  (at level 100, k at level 200, only parsing, right associativity).

(** [defer f; body]: [f] runs when [body] has returned or panicked, never
    when it waits for ever; the values [body] returned stay, a panic of
    [f] replaces them. *)
Definition defer {A} (f : M unit) (body : M A) : M A :=
  fun w =>
    match body w with
    | (Block, w') => (Block, w')
    | (o, w') =>
        match f w' with
        | (Ret _, w'') => (o, w'')
        | (Panic p, w'') => (Panic p, w'')
        | (Block, w'') => (Block, w'')
        end
    end.

(** A method call [c.text.m(...)] that returns: it dereferences [c.text]. *)
Definition call {A} (m : textproto.st -> A * textproto.st) : M A :=
  fun w =>
    match text (self w) with
    | None => (Panic NilDereference, w)
    | Some cn => let '(a, (cn', ev')) := m (cn, wire w) in (Ret a, connected cn' ev')
    end.

(** The same for a method that may wait or panic. *)
Definition call' {A} (m : textproto.st -> outcome A * textproto.st) : M A :=
  fun w =>
    match text (self w) with
    | None => (Panic NilDereference, w)
    | Some cn => let '(o, (cn', ev')) := m (cn, wire w) in (o, connected cn' ev')
    end.

(** A loop on [c.text.ReadLine()]. *)
Definition read_loop {S R} (on_err : error -> R)
    (body : string -> S -> textproto.flow S R) (s : S) : M R :=
  call' (fun '(cn, ev) =>
    let '(o, (rest, ev')) :=
      textproto.for_ReadLine on_err body s (textproto.incoming cn) ev in
    (o, (textproto.set_incoming cn rest, ev'))).

(** *** Dial and Close *)

Definition Dial (net : textproto.Network) (network addr : string)
    (ev : list event)
  : outcome (option Client * option error) * list event :=
  match net network addr with
  | inr err => (Ret (None, Some err), ev)
  | inl text =>
      let '((line, err), (text, ev)) := textproto.ReadLine (text, ev) in
      match err with
      | Some err => (Ret (None, Some err), ev)
      | None =>
          match slice_str line 0 6 with
          | None => (Panic SliceBounds, ev)
          | Some greeting =>
              if negb (String.eqb greeting "OK MPD")
              then (Ret (None, Some (ProtocolError "no greeting")), ev)
              else (Ret (Some (mkClient (Some text)), None), ev)
          end
      end
  end.

Definition Close : M (option error) :=
  fun w =>
    match text (self w) with
    | Some cn =>
        let '(_, s1) := textproto.PrintfLine "close" [] (cn, wire w) in
        let '(err, (_, ev2)) := textproto.Close s1 in
        (Ret err, closed ev2)
    | None => (Ret None, w)
    end.

(** *** The two decoders *)

(** One turn of the loop of [readAttrs], after the line has been read. *)
Definition readAttrs_body (line : string) (attrs : gmap string string)
  : textproto.flow (gmap string string) (Attrs * option error) :=
  if String.eqb line "OK" then textproto.Leave (Ret (Some attrs, None))
  else
    let z := Index line ": " in
    if z <? 0
    then textproto.Leave
           (Ret (None, Some (ProtocolError ("can't parse line: " +:+ line))))
    else
      match slice_str line 0 z, slice_str line (z + 2) (len line) with
      | Some key, Some v => textproto.Continue (<[key := v]> attrs)
      | _, _ => textproto.Leave (Panic SliceBounds)
      end.

Definition readAttrs : M (Attrs * option error) :=
  read_loop (fun err => (None, Some err)) readAttrs_body ∅.

(** One turn of the loop of [readPlaylist]. *)
Definition readPlaylist_body (line : string) (pls : slice)
  : textproto.flow slice (option slice * option error) :=
  if String.eqb line "OK" then textproto.Leave (Ret (Some pls, None))
  else
    let pls := if HasPrefix line "file:" then append1 pls (Some ∅) else pls in
    if (length (elems pls) =? 0)%nat
    then textproto.Leave
           (Ret (None, Some (ProtocolError ("unexpected: " +:+ line))))
    else
      let z := Index line ": " in
      if z <? 0
      then textproto.Leave
             (Ret (None, Some (ProtocolError ("can't parse line: " +:+ line))))
      else
        match slice_str line 0 z, slice_str line (z + 2) (len line) with
        | Some key, Some v =>
            match assign_last pls key v with
            | Ret pls => textproto.Continue pls
            | Panic p => textproto.Leave (Panic p)
            | Block => textproto.Leave Block
            end
        | _, _ => textproto.Leave (Panic SliceBounds)
        end.

Definition readPlaylist : M (option slice * option error) :=
  read_loop (fun err => (None, Some err)) readPlaylist_body (Slice [] 0).

(** *** Queries *)

Definition CurrentSong : M (Attrs * option error) :=
  let* (id, err) := call (textproto.Cmd "currentsong" []) in
  match err with
  | Some err => ret (None, Some err)
  | None =>
      call' (textproto.StartResponse id) ;;
      defer (call' (textproto.EndResponse id)) readAttrs
  end.

Definition Status : M (Attrs * option error) :=
  let* (id, err) := call (textproto.Cmd "status" []) in
  match err with
  | Some err => ret (None, Some err)
  | None =>
      call' (textproto.StartResponse id) ;;
      defer (call' (textproto.EndResponse id)) readAttrs
  end.

Definition readOKLine : M (option error) :=
  let* (line, err) := call textproto.ReadLine in
  match err with
  | Some err => ret (Some err)
  | None =>
      if String.eqb line "OK" then ret None
      else ret (Some (ProtocolError ("unexpected response: " +:+ line)))
  end.

Definition okCmd (format : string) (args : list arg) : M (option error) :=
  let* (id, err) := call (textproto.Cmd format args) in
  match err with
  | Some err => ret (Some err)
  | None =>
      call' (textproto.StartResponse id) ;;
      defer (call' (textproto.EndResponse id)) readOKLine
  end.

Definition Ping : M (option error) := okCmd "ping" [].

(** *** Playback control *)

Definition Next : M (option error) := okCmd "next" [].

Definition Pause (pause : bool) : M (option error) :=
  if pause then okCmd "pause 1" [] else okCmd "pause 0" [].

Definition Play (pos : Z) : M (option error) :=
  (if pos <? 0 then okCmd "play" [] ;; ret tt else ret tt) ;;
  okCmd "play %d" [ArgInt pos].

Definition PlayId (id : Z) : M (option error) :=
  if id <? 0 then okCmd "playid" [] else okCmd "playid %d" [ArgInt id].

Definition Previous : M (option error) := okCmd "next" [].

Definition Seek (pos time : Z) : M (option error) :=
  okCmd "seek %d %d" [ArgInt pos; ArgInt time].

Definition SeekId (id time : Z) : M (option error) :=
  okCmd "seekid %d %d" [ArgInt id; ArgInt time].

Definition Stop : M (option error) := okCmd "stop" [].

(** *** Playlist related functions *)

Definition PlaylistInfo (start end_ : Z) : M (option slice * option error) :=
  if (start <? 0) && (0 <=? end_)
  then ret (None, Some (NewError "negative start index"))
  else if (0 <=? start) && (end_ <? 0)
  then
    let* (id, err) := call (textproto.Cmd "playlistinfo %d" [ArgInt start]) in
    match err with
    | Some err => ret (None, Some err)
    | None =>
        call' (textproto.StartResponse id) ;;
        defer (call' (textproto.EndResponse id)) readPlaylist
    end
  else
    let* (id, err) := call (textproto.Cmd "playlistinfo" []) in
    match err with
    | Some err => ret (None, Some err)
    | None =>
        call' (textproto.StartResponse id) ;;
        defer (call' (textproto.EndResponse id))
          (let* (pls, err) := readPlaylist in
           if (match err with Some _ => true | None => false end)
              || (start <? 0) || (end_ <? 0)
           then ret (pls, err)
           else
             match reslice pls start end_ with
             | Some window => ret (window, None)
             | None => fun w => (Panic SliceBounds, w)
             end)
    end.

Definition Delete (start end_ : Z) : M (option error) :=
  if start <? 0 then ret (Some (NewError "negative start index"))
  else if end_ <? 0 then okCmd "delete %d" [ArgInt start]
  else okCmd "delete %d %d" [ArgInt start; ArgInt end_].

Definition DeleteId (id : Z) : M (option error) :=
  okCmd "deleteid %d" [ArgInt id].

Definition Add (uri : string) : M (option error) :=
  okCmd "add %q" [ArgString uri].

(** [attrs[key]] with the comma-ok form; a nil map has no entries. *)
Definition lookup_ok (attrs : Attrs) (key : string) : option string :=
  match attrs with
  | None => None
  | Some m => m !! key
  end.

Section AddId.

(** [strconv.Atoi] belongs to the Go library.  All the client relies on is
    its shape: a value, and on failure a [*strconv.NumError] that carries
    the input and [os.EINVAL] or [os.ERANGE]. *)
Variable Atoi : string -> Z * option errno.

Definition strconv_Atoi (s : string) : Z * option error :=
  let '(i, e) := Atoi s in (i, NumError s <$> e).

(** The end of [AddId], from [attrs, err := c.readAttrs()] on. *)
Definition AddId_decode : M (Z * option error) :=
  let* (attrs, err) := readAttrs in
  match err with
  | Some err => ret (-1, Some err)
  | None =>
      match lookup_ok attrs "Id" with
      | None => ret (-1, Some (ProtocolError "addid did not return Id"))
      | Some tok => ret (strconv_Atoi tok)
      end
  end.

Definition AddId (uri : string) (pos : Z) : M (Z * option error) :=
  let* (id, err) :=
    (if 0 <=? pos
     then call (textproto.Cmd "addid %q %d" [ArgString uri; ArgInt pos])
     else ret (0%N, None)) in
  let* (id, err) := call (textproto.Cmd "addid %q" [ArgString uri]) in
  match err with
  | Some err => ret (-1, Some err)
  | None =>
      call' (textproto.StartResponse id) ;;
      defer (call' (textproto.EndResponse id)) AddId_decode
  end.

End AddId.

Definition Clear : M (option error) := okCmd "clear" [].

End mpd.

(* ===================================================================== *)
(** ** strconv.Atoi, for running the client on concrete responses         *)
(* ===================================================================== *)

Module strconv.
Import Go.

(** The digit loop of [Btoui64] in base 10 on a [uint64] accumulator:
    a byte that is no decimal digit is [EINVAL]; a product or a sum that
    leaves 64 bits is [ERANGE]. *)
Fixpoint Btoui64_loop (s : string) (n : Z) : Z * option errno :=
  match s with
  | EmptyString => (n, None)
  | String d s' =>
      let c := Z.of_N (N_of_ascii d) in
      if (48 <=? c) && (c <=? 57) then
        if (2 ^ 64 - 1) / 10 + 1 <=? n then (2 ^ 64 - 1, Some ERANGE)
        else
          let n1 := n * 10 + (c - 48) in
          if 2 ^ 64 <=? n1 then (2 ^ 64 - 1, Some ERANGE)
          else Btoui64_loop s' n1
      else (0, Some EINVAL)
  end.

Definition Atoui64 (s : string) : Z * option errno :=
  match s with
  | EmptyString => (0, Some EINVAL)
  | _ => Btoui64_loop s 0
  end.

(** [Atoi64]: an optional sign, then [Atoui64], then the 64-bit range. *)
Definition Atoi64 (s : string) : Z * option errno :=
  match s with
  | EmptyString => (0, Some EINVAL)
  | String c s' =>
      let neg := Ascii.eqb c "-" in
      let body := if Ascii.eqb c "+" || neg then s' else s in
      match Atoui64 body with
      | (_, Some EINVAL) => (0, Some EINVAL)
      | (un, _) =>
          if negb neg && (2 ^ 63 <=? un) then (2 ^ 63 - 1, Some ERANGE)
          else if neg && (2 ^ 63 <? un) then (- 2 ^ 63, Some ERANGE)
          else (if neg then - un else un, None)
      end
  end.

(** [Atoi]: [Atoi64] narrowed to the 32 bits of [int]. *)
Definition Atoi (s : string) : Z * option errno :=
  match Atoi64 s with
  | (_, Some EINVAL) => (0, Some EINVAL)
  | (i1, _) =>
      if i1 <? - 2 ^ 31 then (- 2 ^ 31, Some ERANGE)
      else if 2 ^ 31 <=? i1 then (2 ^ 31 - 1, Some ERANGE)
      else (i1, None)
  end.

End strconv.

(* ===================================================================== *)
(** ** The shape of a response, as the decoders take it                   *)
(* ===================================================================== *)

Module Response.
Import Go textproto mpd.

(** The key and the value the decoders cut out of a line at the first
    [": "]. *)
Definition key_of (line : string) : string :=
  String.substring 0 (Z.to_nat (Index line ": ")) line.

Definition value_of (line : string) : string :=
  let z := Index line ": " in
  String.substring (Z.to_nat (z + 2)) (Z.to_nat (len line - (z + 2))) line.

(** A data line: not the success terminator, and with a delimiter. *)
Definition is_data (line : string) : bool :=
  negb (String.eqb line "OK") && (0 <=? Index line ": ").

(** The map a run of data lines builds on top of [m]. *)
Definition attrs_of (lines : list string) (m : gmap string string)
  : gmap string string :=
  foldl (fun m line => <[key_of line := value_of line]> m) m lines.

(** A song entry in a listing: a data line that begins with [file:], then
    data lines that do not. *)
Definition is_entry (e : string * list string) : bool :=
  is_data (fst e) && HasPrefix (fst e) "file:" &&
  forallb (fun l => is_data l && negb (HasPrefix l "file:")) (snd e).

Definition entry_lines (e : string * list string) : list string :=
  fst e :: snd e.

Definition record_of (e : string * list string) : Attrs :=
  Some (attrs_of (entry_lines e) ∅).

(** The lines of a listing, and the slice that appending its records one
    by one to the empty slice gives. *)
Definition lines_of (es : list (string * list string)) : list string :=
  concat (map entry_lines es).

Definition listing (recs : list Attrs) : slice :=
  foldl append1 (Slice [] 0) recs.

(** The grouping the specification words: a line whose key is [file] opens
    a record, any other data line goes to the record opened last.  The
    records are kept newest first while grouping. *)
Definition spec_group_step (acc : list (gmap string string)) (line : string)
  : list (gmap string string) :=
  if String.eqb (key_of line) "file"
  then {[key_of line := value_of line]} :: acc
  else match acc with
       | r :: acc' => <[key_of line := value_of line]> r :: acc'
       | [] => []
       end.

Definition spec_records (lines : list string) : list (gmap string string) :=
  rev (foldl spec_group_step [] lines).

(** The two messages a decoder has for a line it cannot take. *)
Definition cant_parse (line : string) : error :=
  ProtocolError ("can't parse line: " +:+ line).
Definition unexpected (line : string) : error :=
  ProtocolError ("unexpected: " +:+ line).

(** A connection on which a command can be sent and its response read at
    once: writes succeed and no response is outstanding. *)
Definition ready (cn : Conn) : Prop :=
  write_err cn = None /\ resp_id cn = next_id cn.

(** The world once [Cmd format args] has been written on a ready
    connection, and once the response bracket of [id] has been closed. *)
Definition after_Cmd (format : string) (args : list arg)
    (cn : Conn) (ev : list event) : World :=
  connected (set_next_id cn (uint_succ (next_id cn))) (ev ++ [Sent format args]).

(** The world once [AddId uri pos] has written its command lines on a
    ready connection, and the id of the last of them. *)
Definition sent_addid (uri : string) (pos : Z) (cn : Conn) (ev : list event)
  : World :=
  if 0 <=? pos
  then after_Cmd "addid %q" [ArgString uri]
         (set_next_id cn (uint_succ (next_id cn)))
         (ev ++ [Sent "addid %q %d" [ArgString uri; ArgInt pos]])
  else after_Cmd "addid %q" [ArgString uri] cn ev.

Definition addid_id (pos : Z) (cn : Conn) : N :=
  if 0 <=? pos then uint_succ (next_id cn) else next_id cn.

Definition after_EndResponse (w : World) : World :=
  match text (self w) with
  | Some cn => connected (set_resp_id cn (uint_succ (resp_id cn))) (wire w)
  | None => w
  end.

End Response.

Import Go textproto mpd Response.

(* ===================================================================== *)
(** ** One command and its answer                                         *)
(* ===================================================================== *)

Module Session.

(** What [readOKLine] makes of the line it has read. *)
Definition ok_or_unexpected (line : string) : option error :=
  if String.eqb line "OK" then None
  else Some (ProtocolError ("unexpected response: " +:+ line)).

(** The connection once one command has been written on it and its
    response bracket has been closed, with [rest] left to read. *)
Definition answered (cn : Conn) (rest : list string) : Conn :=
  mkConn rest (write_err cn) (close_err cn)
         (uint_succ (next_id cn)) (uint_succ (next_id cn)).

(** An operation keeps the session in step when, started on a connection
    that is ready for a command, it returns or panics with the client
    still holding a connection that is ready for the next command; it
    neither waits for ever nor trips the sequencer. *)
Definition keeps_ready {A : Type} (op : M A) : Prop :=
  forall cn ev, ready cn ->
    exists o cn' ev',
      op (connected cn ev) = (o, connected cn' ev')
      /\ o <> Block /\ o <> Panic OutOfSync /\ ready cn'.

(** A response reader only reads: it returns or panics with the same
    connection, of which it has taken lines and nothing else. *)
Definition only_reads {A : Type} (body : M A) : Prop :=
  forall cn ev,
    exists o rest ev',
      body (connected cn ev) = (o, connected (set_incoming cn rest) ev')
      /\ o <> Block /\ o <> Panic OutOfSync.

End Session.

Import Session.

(* ===================================================================== *)
(** ** Properties                                                         *)
(* ===================================================================== *)

Example Atoi_samples :
  strconv.Atoi "42" = (42, None) /\ strconv.Atoi "-7" = (-7, None) /\
  strconv.Atoi "" = (0, Some EINVAL) /\ strconv.Atoi "4x" = (0, Some EINVAL) /\
  strconv.Atoi "2147483648" = (2147483647, Some ERANGE).
Proof. repeat split; vm_compute; reflexivity. Qed.

(** *** Strings *)

Lemma prefix_length (p s : string) :
  String.prefix p s = true -> (String.length p <= String.length s)%nat.
Proof.
  revert s; induction p as [|a p IH]; intros [|b s]; simpl; try lia; try discriminate.
  destruct (ascii_dec a b); [|discriminate].
  intros H; apply IH in H; lia.
Qed.

Lemma index_bound (sep s : string) (n : nat) :
  String.index 0 sep s = Some n -> (n + String.length sep <= String.length s)%nat.
Proof.
  revert n; induction s as [|b s IH]; intros n; cbn [String.index].
  - destruct sep; [|discriminate]. intros [= ?]; subst; simpl; lia.
  - destruct (String.prefix sep (String b s)) eqn:Hp.
    + intros [= ?]; subst. apply prefix_length in Hp. simpl in Hp |- *. lia.
    + destruct (String.index 0 sep s) as [m|]; [|discriminate].
      intros [= ?]; subst. specialize (IH m eq_refl). simpl. lia.
Qed.

Lemma Index_cut (line : string) :
  0 <= Index line ": " ->
  slice_str line 0 (Index line ": ") = Some (key_of line) /\
  slice_str line (Index line ": " + 2) (len line) = Some (value_of line).
Proof.
  unfold Index, slice_str, key_of, value_of, len, Index.
  destruct (String.index 0 ": " line) as [n|] eqn:Hi; [|lia].
  intros _. apply index_bound in Hi. simpl in Hi.
  split.
  - replace ((0 <=? 0) && (0 <=? Z.of_nat n) && (Z.of_nat n <=? Z.of_nat (String.length line)))
      with true by (symmetry; rewrite !andb_true_iff; repeat split; lia).
    do 2 f_equal; lia.
  - replace ((0 <=? Z.of_nat n + 2) && (Z.of_nat n + 2 <=? Z.of_nat (String.length line))
             && (Z.of_nat (String.length line) <=? Z.of_nat (String.length line)))
      with true by (symmetry; rewrite !andb_true_iff; repeat split; lia).
    reflexivity.
Qed.

Lemma ACK_not_OK (line : string) :
  HasPrefix line "ACK" = true ->
  String.eqb line "OK" = false /\ HasPrefix line "file:" = false.
Proof.
  unfold HasPrefix. destruct line as [|c line]; cbn [String.prefix]; [discriminate|].
  destruct (ascii_dec "A" c) as [<-|]; [|discriminate].
  intros _. split; reflexivity.
Qed.

(** *** Slices *)

Lemma elems_append1 (s : slice) (x : Attrs) : elems (append1 s x) = elems s ++ [x].
Proof. unfold append1. destruct (_ <? _)%nat; reflexivity. Qed.

Lemma cap_append1 (s : slice) (x y : Attrs) : cap (append1 s x) = cap (append1 s y).
Proof. unfold append1. destruct (_ <? _)%nat; reflexivity. Qed.

Lemma append1_fits (s : slice) (x : Attrs) :
  (length (elems s) <= cap s)%nat ->
  (length (elems (append1 s x)) <= cap (append1 s x))%nat.
Proof.
  intros Hs. unfold append1.
  destruct (Nat.ltb_spec (length (elems s)) (cap s));
    cbn [elems cap]; rewrite length_app; cbn [length].
  - lia.
  - destruct (Nat.eqb_spec (cap s) 0); [lia|].
    destruct (Nat.ltb_spec (length (elems s)) 1024); [lia|].
    assert (1 <= cap s / 4)%nat by (apply Nat.div_le_lower_bound; lia). lia.
Qed.

Lemma assign_last_snoc (init : list Attrs) (r : gmap string string) (c : nat)
    (k v : string) :
  assign_last (Slice (init ++ [Some r]) c) k v
  = Ret (Slice (init ++ [Some (<[k := v]> r)]) c).
Proof.
  unfold assign_last; simpl. rewrite length_app; simpl.
  replace (length init + 1 - 1)%nat with (length init) by lia.
  rewrite list_lookup_middle by reflexivity.
  rewrite insert_app_r_alt by lia.
  replace (length init - length init)%nat with 0%nat by lia. reflexivity.
Qed.

(** *** The read loop *)

Lemma for_ReadLine_app {S R : Type} (on_err : error -> R)
    (body : string -> S -> flow S R) (step : S -> string -> S)
    (good : string -> bool) (inv : S -> Prop) :
  (forall l s, good l = true -> inv s ->
     body l s = Continue (step s l) /\ inv (step s l)) ->
  forall ls s rest ev, forallb good ls = true -> inv s ->
    for_ReadLine on_err body s (ls ++ rest) ev
    = for_ReadLine on_err body (foldl step s ls) rest (ev ++ map Received ls).
Proof.
  intros Hstep ls. induction ls as [|l ls IH]; intros s rest ev Hgood Hinv; simpl.
  - now rewrite app_nil_r.
  - apply andb_true_iff in Hgood as [Hl Hls].
    destruct (Hstep l s Hl Hinv) as [-> Hinv'].
    rewrite IH by assumption. now rewrite <- app_assoc.
Qed.

Lemma read_loop_connected {S R : Type} (on_err : error -> R)
    (body : string -> S -> flow S R) (s : S) (cn : Conn) (ev : list event) :
  read_loop on_err body s (connected cn ev)
  = let '(o, (rest, ev')) := for_ReadLine on_err body s (incoming cn) ev in
    (o, connected (set_incoming cn rest) ev').
Proof.
  unfold read_loop, call'; simpl.
  destruct (for_ReadLine on_err body s (incoming cn) ev) as [o [rest ev']].
  reflexivity.
Qed.

(** *** readAttrs on a run of data lines *)

Lemma is_data_spec (l : string) :
  is_data l = true -> String.eqb l "OK" = false /\ 0 <= Index l ": ".
Proof.
  unfold is_data. rewrite andb_true_iff, negb_true_iff, Z.leb_le. tauto.
Qed.

Lemma readAttrs_body_data (l : string) (m : gmap string string) :
  is_data l = true ->
  readAttrs_body l m = Continue (<[key_of l := value_of l]> m).
Proof.
  intros [Hok Hz]%is_data_spec. unfold readAttrs_body. rewrite Hok.
  destruct (Z.ltb_spec (Index l ": ") 0); [lia|].
  destruct (Index_cut l Hz) as [-> ->]. reflexivity.
Qed.

Lemma readAttrs_body_malformed (l : string) (m : gmap string string) :
  String.eqb l "OK" = false -> Index l ": " < 0 ->
  readAttrs_body l m = Leave (Ret (None, Some (cant_parse l))).
Proof.
  intros Hok Hz. unfold readAttrs_body. rewrite Hok.
  destruct (Z.ltb_spec (Index l ": ") 0); [reflexivity|lia].
Qed.

Lemma readAttrs_data_lines (ls : list string) (m : gmap string string)
    (rest : list string) (ev : list event) :
  forallb is_data ls = true ->
  for_ReadLine (fun err => (None, Some err)) readAttrs_body m (ls ++ rest) ev
  = for_ReadLine (fun err => (None, Some err)) readAttrs_body
      (attrs_of ls m) rest (ev ++ map Received ls).
Proof.
  intros Hls.
  apply (for_ReadLine_app _ _ (fun m l => <[key_of l := value_of l]> m)
           is_data (fun _ => True)); auto.
  intros l s Hl _. split; [now apply readAttrs_body_data|exact I].
Qed.

(** *** readPlaylist on a run of song entries *)

Lemma readPlaylist_body_marker (l : string) (pls : slice) :
  is_data l = true -> HasPrefix l "file:" = true ->
  readPlaylist_body l pls
  = Continue (append1 pls (Some (<[key_of l := value_of l]> ∅))).
Proof.
  intros [Hok Hz]%is_data_spec Hf. unfold readPlaylist_body. rewrite Hok, Hf.
  rewrite elems_append1, length_app; simpl.
  replace (length (elems pls) + 1 =? 0)%nat with false
    by (symmetry; apply Nat.eqb_neq; lia).
  destruct (Z.ltb_spec (Index l ": ") 0); [lia|].
  destruct (Index_cut l Hz) as [-> ->].
  destruct (append1 pls (Some ∅)) as [es c] eqn:Happ.
  assert (es = elems pls ++ [Some ∅]) as ->
    by (rewrite <- (elems_append1 pls (Some ∅)), Happ; reflexivity).
  rewrite assign_last_snoc. f_equal.
  destruct (append1 pls (Some (<[key_of l:=value_of l]> ∅))) as [es' c'] eqn:Happ'.
  f_equal.
  - rewrite <- (elems_append1 pls (Some (<[key_of l:=value_of l]> ∅))), Happ'. reflexivity.
  - change c with (cap (Slice (elems pls ++ [Some ∅]) c)). rewrite <- Happ.
    change c' with (cap (Slice es' c')). rewrite <- Happ'. apply cap_append1.
Qed.

Lemma readPlaylist_body_follower (l : string) (init : list Attrs)
    (r : gmap string string) (c : nat) :
  is_data l = true -> HasPrefix l "file:" = false ->
  readPlaylist_body l (Slice (init ++ [Some r]) c)
  = Continue (Slice (init ++ [Some (<[key_of l := value_of l]> r)]) c).
Proof.
  intros [Hok Hz]%is_data_spec Hf. unfold readPlaylist_body. rewrite Hok, Hf.
  simpl elems. rewrite length_app; simpl.
  replace (length init + 1 =? 0)%nat with false
    by (symmetry; apply Nat.eqb_neq; lia).
  destruct (Z.ltb_spec (Index l ": ") 0); [lia|].
  destruct (Index_cut l Hz) as [-> ->].
  rewrite assign_last_snoc. reflexivity.
Qed.

Lemma readPlaylist_followers (fs : list string) :
  forall (init : list Attrs) (r : gmap string string) (c : nat)
         (rest : list string) (ev : list event),
  forallb (fun l => is_data l && negb (HasPrefix l "file:")) fs = true ->
  for_ReadLine (fun err => (None, Some err)) readPlaylist_body
    (Slice (init ++ [Some r]) c) (fs ++ rest) ev
  = for_ReadLine (fun err => (None, Some err)) readPlaylist_body
      (Slice (init ++ [Some (attrs_of fs r)]) c) rest (ev ++ map Received fs).
Proof.
  induction fs as [|l fs IH]; intros init r c rest ev Hfs; simpl.
  - now rewrite app_nil_r.
  - apply andb_true_iff in Hfs as [Hl Hfs].
    apply andb_true_iff in Hl as [Hd Hf]. apply negb_true_iff in Hf.
    rewrite readPlaylist_body_follower by assumption.
    rewrite IH by assumption. now rewrite <- app_assoc.
Qed.

Lemma readPlaylist_entry (e : string * list string) (pls : slice)
    (rest : list string) (ev : list event) :
  is_entry e = true ->
  for_ReadLine (fun err => (None, Some err)) readPlaylist_body
    pls (entry_lines e ++ rest) ev
  = for_ReadLine (fun err => (None, Some err)) readPlaylist_body
      (append1 pls (record_of e)) rest (ev ++ map Received (entry_lines e)).
Proof.
  destruct e as [m fs]. unfold is_entry, entry_lines, record_of; simpl.
  rewrite !andb_true_iff. intros [[Hd Hf] Hfs].
  rewrite readPlaylist_body_marker by assumption.
  destruct (append1 pls (Some (<[key_of m:=value_of m]> ∅))) as [es c] eqn:Happ.
  assert (es = elems pls ++ [Some (<[key_of m:=value_of m]> ∅)]) as ->
    by (rewrite <- elems_append1, Happ; reflexivity).
  rewrite readPlaylist_followers by assumption.
  rewrite <- app_assoc. simpl. do 2 f_equal.
  destruct (append1 pls (Some (attrs_of fs (<[key_of m:=value_of m]> ∅))))
    as [es' c'] eqn:Happ'.
  f_equal.
  - rewrite <- elems_append1, Happ'. reflexivity.
  - change c with (cap (Slice (elems pls ++ [Some (<[key_of m:=value_of m]> ∅)]) c)).
    rewrite <- Happ. change c' with (cap (Slice es' c')). rewrite <- Happ'.
    apply cap_append1.
Qed.

Lemma readPlaylist_entries (es : list (string * list string)) :
  forall (pls : slice) (rest : list string) (ev : list event),
  forallb is_entry es = true ->
  for_ReadLine (fun err => (None, Some err)) readPlaylist_body
    pls (lines_of es ++ rest) ev
  = for_ReadLine (fun err => (None, Some err)) readPlaylist_body
      (foldl append1 pls (map record_of es)) rest
      (ev ++ map Received (lines_of es)).
Proof.
  unfold lines_of.
  induction es as [|e es IH]; intros pls rest ev Hes.
  - simpl. now rewrite app_nil_r.
  - cbn [forallb] in Hes. apply andb_true_iff in Hes as [He Hes].
    cbn [map concat foldl].
    rewrite <- app_assoc, readPlaylist_entry by assumption.
    rewrite IH by assumption. rewrite map_app, app_assoc. reflexivity.
Qed.

Lemma elems_foldl_append1 (recs : list Attrs) (pls : slice) :
  elems (foldl append1 pls recs) = elems pls ++ recs.
Proof.
  revert pls; induction recs as [|r recs IH]; intros pls; simpl.
  - now rewrite app_nil_r.
  - rewrite IH, elems_append1, <- app_assoc. reflexivity.
Qed.

Lemma elems_listing (recs : list Attrs) : elems (listing recs) = recs.
Proof. unfold listing. now rewrite elems_foldl_append1. Qed.

Lemma foldl_append1_fits (recs : list Attrs) (pls : slice) :
  (length (elems pls) <= cap pls)%nat ->
  (length (elems (foldl append1 pls recs)) <= cap (foldl append1 pls recs))%nat.
Proof.
  revert pls; induction recs as [|r recs IH]; intros pls H; simpl; [assumption|].
  apply IH, append1_fits, H.
Qed.

Lemma listing_fits (recs : list Attrs) : (length recs <= cap (listing recs))%nat.
Proof.
  rewrite <- (elems_listing recs) at 1. apply foldl_append1_fits. simpl. lia.
Qed.

(** *** The decoders on whole responses *)

Lemma readAttrs_OK (cn : Conn) (ev : list event) (ls rest : list string) :
  forallb is_data ls = true ->
  incoming cn = ls ++ "OK" :: rest ->
  readAttrs (connected cn ev)
  = (Ret (Some (attrs_of ls ∅), None),
     connected (set_incoming cn rest) (ev ++ map Received (ls ++ ["OK"]))).
Proof.
  intros Hls Hin. unfold readAttrs. rewrite read_loop_connected, Hin.
  rewrite readAttrs_data_lines by assumption. simpl.
  rewrite map_app, app_assoc. reflexivity.
Qed.

Lemma readAttrs_malformed (cn : Conn) (ev : list event) (ls rest : list string)
    (bad : string) :
  forallb is_data ls = true ->
  String.eqb bad "OK" = false -> Index bad ": " < 0 ->
  incoming cn = ls ++ bad :: rest ->
  readAttrs (connected cn ev)
  = (Ret (None, Some (cant_parse bad)),
     connected (set_incoming cn rest) (ev ++ map Received (ls ++ [bad]))).
Proof.
  intros Hls Hok Hz Hin. unfold readAttrs. rewrite read_loop_connected, Hin.
  rewrite readAttrs_data_lines by assumption. simpl.
  rewrite readAttrs_body_malformed by assumption.
  rewrite map_app, app_assoc. reflexivity.
Qed.

Lemma readPlaylist_OK (cn : Conn) (ev : list event)
    (es : list (string * list string)) (rest : list string) :
  forallb is_entry es = true ->
  incoming cn = lines_of es ++ "OK" :: rest ->
  readPlaylist (connected cn ev)
  = (Ret (Some (listing (map record_of es)), None),
     connected (set_incoming cn rest)
       (ev ++ map Received (lines_of es ++ ["OK"]))).
Proof.
  intros Hes Hin. unfold readPlaylist. rewrite read_loop_connected, Hin.
  rewrite readPlaylist_entries by assumption. simpl.
  rewrite map_app, app_assoc. reflexivity.
Qed.

Lemma readPlaylist_body_malformed (l : string) (pls : slice) :
  String.eqb l "OK" = false -> Index l ": " < 0 ->
  readPlaylist_body l pls
  = Leave (Ret (None, Some (if HasPrefix l "file:" || negb (length (elems pls) =? 0)%nat
                            then cant_parse l else unexpected l))).
Proof.
  intros Hok Hz. unfold readPlaylist_body. rewrite Hok.
  destruct (HasPrefix l "file:"); simpl orb.
  - rewrite elems_append1, length_app; simpl length.
    replace (length (elems pls) + 1 =? 0)%nat with false
      by (symmetry; apply Nat.eqb_neq; lia).
    destruct (Z.ltb_spec (Index l ": ") 0); [reflexivity|lia].
  - destruct (length (elems pls) =? 0)%nat; [reflexivity|].
    destruct (Z.ltb_spec (Index l ": ") 0); [reflexivity|lia].
Qed.

Lemma readPlaylist_body_orphan (l : string) (c : nat) :
  String.eqb l "OK" = false -> HasPrefix l "file:" = false ->
  readPlaylist_body l (Slice [] c) = Leave (Ret (None, Some (unexpected l))).
Proof. intros Hok Hf. unfold readPlaylist_body. rewrite Hok, Hf. reflexivity. Qed.

Lemma readPlaylist_malformed (cn : Conn) (ev : list event)
    (es : list (string * list string)) (rest : list string) (bad : string) :
  forallb is_entry es = true ->
  String.eqb bad "OK" = false -> Index bad ": " < 0 ->
  incoming cn = lines_of es ++ bad :: rest ->
  readPlaylist (connected cn ev)
  = (Ret (None, Some (if HasPrefix bad "file:" || negb (length es =? 0)%nat
                      then cant_parse bad else unexpected bad)),
     connected (set_incoming cn rest)
       (ev ++ map Received (lines_of es ++ [bad]))).
Proof.
  intros Hes Hok Hz Hin. unfold readPlaylist. rewrite read_loop_connected, Hin.
  rewrite readPlaylist_entries by assumption. simpl.
  rewrite readPlaylist_body_malformed by assumption.
  rewrite elems_foldl_append1; simpl. rewrite length_map.
  rewrite map_app, app_assoc. reflexivity.
Qed.

(** *** Empty responses *)

(** C8: a response that is the single line [OK] decodes without error to an
    empty result: [readAttrs] returns the empty (non-nil) map and
    [readPlaylist] the empty (non-nil) slice; only that line is consumed. *)
Theorem empty_response_decodes (cn : Conn) (ev : list event) (rest : list string) :
  readAttrs (connected (set_incoming cn ("OK" :: rest)) ev)
  = (Ret (Some ∅, None), connected (set_incoming cn rest) (ev ++ [Received "OK"]))
  /\ readPlaylist (connected (set_incoming cn ("OK" :: rest)) ev)
     = (Ret (Some (Slice [] 0), None),
        connected (set_incoming cn rest) (ev ++ [Received "OK"])).
Proof. split; reflexivity. Qed.

(** *** ACK lines *)

(** C1 (as stated, refuted): the flat decode of the one-line response
    [ACK some error] does not fail with the message [some error]. *)
Lemma ack_message_is_not_the_remainder :
  ~ exists e,
      fst (readAttrs (connected (mkConn ["ACK some error"] None None 0 0) []))
      = Ret (None, Some e)
      /\ message e = Some "some error".
Proof. intros (e & He & Hm). vm_compute in He. injection He as <-. discriminate Hm. Qed.

(** C1 (amended): the decoders have no case for [ACK].  An [ACK] line
    without [": "] that ends a well-formed block is reported as a line that
    cannot be taken: [readAttrs] fails with the [ProtocolError] "can't
    parse line: " followed by the whole line, and [readPlaylist] with
    "unexpected: " followed by the whole line when no entry came before it
    and with "can't parse line: " followed by the whole line otherwise;
    this holds whatever data lines came first, and the lines behind the
    [ACK] line stay unread. *)
Theorem ack_line_reported_whole (cn : Conn) (ev : list event)
    (ack : string) (rest : list string) :
  HasPrefix ack "ACK" = true -> Index ack ": " < 0 ->
  (forall ls, forallb is_data ls = true -> incoming cn = ls ++ ack :: rest ->
     readAttrs (connected cn ev)
     = (Ret (None, Some (ProtocolError ("can't parse line: " +:+ ack))),
        connected (set_incoming cn rest) (ev ++ map Received (ls ++ [ack]))))
  /\ (forall es, forallb is_entry es = true ->
        incoming cn = lines_of es ++ ack :: rest ->
        readPlaylist (connected cn ev)
        = (Ret (None, Some (ProtocolError
                  ((if (length es =? 0)%nat then "unexpected: "
                    else "can't parse line: ") +:+ ack))),
           connected (set_incoming cn rest)
             (ev ++ map Received (lines_of es ++ [ack])))).
Proof.
  intros Hack Hz. destruct (ACK_not_OK ack Hack) as [Hok Hf]. split.
  - intros ls Hls Hin. now apply readAttrs_malformed.
  - intros es Hes Hin.
    rewrite (readPlaylist_malformed cn ev es rest ack) by assumption.
    rewrite Hf. destruct (length es =? 0)%nat; reflexivity.
Qed.

Lemma ack_line_reported_whole_witness :
  readAttrs (connected (mkConn ["volume: 50"; "ACK some error"; "OK"] None None 0 0) [])
  = (Ret (None, Some (ProtocolError "can't parse line: ACK some error")),
     connected (mkConn ["OK"] None None 0 0)
       [Received "volume: 50"; Received "ACK some error"]).
Proof.
  apply (proj1 (ack_line_reported_whole
                  (mkConn ["volume: 50"; "ACK some error"; "OK"] None None 0 0)
                  [] "ACK some error" ["OK"] eq_refl ltac:(vm_compute; reflexivity))
               ["volume: 50"]); reflexivity.
Defined.

(** *** Lines the decoders cannot take *)

(** C5 (as stated, refuted): two parts fail.  The key/value line
    [file:a: b] has the key [file:a], which is not the marker key, and it
    comes before any marker line, yet [readPlaylist] accepts it and opens a
    record with it.  And the error for a line without [": "] is not set
    apart from the report of an [ACK] line: [garbage] and [ACK some error]
    leave [readAttrs] by the same return statement, with the same error
    type and the same message form. *)
Lemma malformed_errors_not_set_apart :
  (is_data "file:a: b" = true /\ key_of "file:a: b" <> "file"
   /\ fst (readPlaylist
             (connected (mkConn ["file:a: b"; "OK"] None None 0 0) []))
      = Ret (Some (Slice [Some {["file:a" := "b"]}] 1), None))
  /\ (fst (readAttrs (connected (mkConn ["garbage"] None None 0 0) []))
      = Ret (None, Some (ProtocolError "can't parse line: garbage"))
      /\ fst (readAttrs (connected (mkConn ["ACK some error"] None None 0 0) []))
         = Ret (None, Some (ProtocolError "can't parse line: ACK some error"))).
Proof.
  split; [split; [|split]|split]; try (vm_compute; reflexivity).
  vm_compute. discriminate.
Qed.

(** C5 (amended): in either decoder a line other than [OK] without [": "]
    ends the decode with a [textproto.ProtocolError] that carries the
    whole line, and the lines after it stay unread: [readAttrs] reports
    "can't parse line: "; [readPlaylist] reports "can't parse line: " when
    the line begins with [file:] or a record is open and "unexpected: "
    otherwise.  In [readPlaylist] a first line that does not begin with
    [file:], with or without [": "], is reported with "unexpected: ".  An
    [ACK] line is such a line and is reported the same way: the decoders
    draw no line between a malformed response and a refused command. *)
Theorem malformed_line_is_protocol_error (cn : Conn) (ev : list event)
    (l : string) (rest : list string) :
  String.eqb l "OK" = false ->
  (Index l ": " < 0 ->
     forall ls, forallb is_data ls = true -> incoming cn = ls ++ l :: rest ->
       readAttrs (connected cn ev)
       = (Ret (None, Some (ProtocolError ("can't parse line: " +:+ l))),
          connected (set_incoming cn rest) (ev ++ map Received (ls ++ [l]))))
  /\ (Index l ": " < 0 ->
       forall es, forallb is_entry es = true ->
         incoming cn = lines_of es ++ l :: rest ->
         readPlaylist (connected cn ev)
         = (Ret (None,
                 Some (ProtocolError
                         ((if HasPrefix l "file:" || negb (length es =? 0)%nat
                           then "can't parse line: " else "unexpected: ")
                          +:+ l))),
            connected (set_incoming cn rest)
              (ev ++ map Received (lines_of es ++ [l]))))
  /\ (HasPrefix l "file:" = false ->
       incoming cn = l :: rest ->
       readPlaylist (connected cn ev)
       = (Ret (None, Some (ProtocolError ("unexpected: " +:+ l))),
          connected (set_incoming cn rest) (ev ++ [Received l]))).
Proof.
  intros Hok. split; [|split].
  - intros Hz ls Hls Hin. now apply readAttrs_malformed.
  - intros Hz es Hes Hin.
    rewrite (readPlaylist_malformed cn ev es rest l) by assumption.
    destruct (_ || _); reflexivity.
  - intros Hf Hin. unfold readPlaylist.
    rewrite read_loop_connected, Hin. simpl.
    rewrite readPlaylist_body_orphan by assumption. reflexivity.
Qed.

Lemma malformed_line_is_protocol_error_witness :
  readAttrs (connected (mkConn ["volume: 50"; "garbage"; "state: play"; "OK"]
                          None None 0 0) [])
  = (Ret (None, Some (ProtocolError "can't parse line: garbage")),
     connected (mkConn ["state: play"; "OK"] None None 0 0)
       [Received "volume: 50"; Received "garbage"]).
Proof.
  apply (proj1 (malformed_line_is_protocol_error
                  (mkConn ["volume: 50"; "garbage"; "state: play"; "OK"] None None 0 0)
                  [] "garbage" ["state: play"; "OK"] eq_refl)
               ltac:(vm_compute; reflexivity) ["volume: 50"]); reflexivity.
Defined.

(** *** Records of a listing *)

Lemma key_file_is_marker (l : string) :
  is_data l = true -> key_of l = "file" -> HasPrefix l "file:" = true.
Proof.
  intros [_ Hz]%is_data_spec. unfold key_of. revert Hz. unfold Index, HasPrefix.
  destruct (String.index 0 ": " l) as [n|] eqn:Hi; [|lia].
  intros _. rewrite Nat2Z.id. intros Hkey.
  pose proof (index_bound _ _ _ Hi) as Hb.
  apply String.index_correct1 in Hi.
  destruct l as [|c1 [|c2 [|c3 [|c4 l]]]];
    destruct n as [|[|[|[|n]]]]; simpl in Hkey, Hb; try discriminate; try lia.
  injection Hkey as -> -> -> -> Hkey.
  destruct n as [|n].
  - simpl in Hi. destruct l as [|c5 l]; [discriminate|].
    simpl in Hi. injection Hi as -> _. destruct l; reflexivity.
  - destruct l as [|c5 l]; simpl in Hkey, Hb; [lia|discriminate].
Qed.

(** C6 (as stated, refuted): on the lines [file: x], [file:a: b], [OK] the
    second line has the key [file:a], not the marker key, so the grouping
    the claim words yields the single record [{file: x, file:a: b}]; the
    decoder returns two records. *)
Lemma file_prefix_opens_a_record :
  forallb is_data ["file: x"; "file:a: b"] = true
  /\ key_of "file:a: b" = "file:a"
  /\ spec_records ["file: x"; "file:a: b"]
     = [<["file:a" := "b"]> {["file" := "x"]}]
  /\ fst (readPlaylist
            (connected (mkConn ["file: x"; "file:a: b"; "OK"] None None 0 0) []))
     = Ret (Some (Slice [Some {["file" := "x"]}; Some {["file:a" := "b"]}] 2), None)
  /\ [Some {["file" := "x"]}; Some {["file:a" := "b"]}]
     <> map Some (spec_records ["file: x"; "file:a: b"]).
Proof.
  repeat split; try (vm_compute; reflexivity).
  intros H. apply (f_equal length) in H. vm_compute in H. discriminate.
Qed.

(** C6 (amended): [readPlaylist] starts a new record at every line that
    begins with [file:] (every line whose key is [file] is such a line) and
    puts that line and the data lines after it, up to the next line that
    begins with [file:] or the terminator, into the record; a well-formed
    listing decodes to one record per entry, in the order of the
    entries. *)
Theorem records_follow_file_lines (cn : Conn) (ev : list event)
    (es : list (string * list string)) (rest : list string) :
  forallb is_entry es = true ->
  incoming cn = lines_of es ++ "OK" :: rest ->
  (exists c,
     readPlaylist (connected cn ev)
     = (Ret (Some (Slice (map record_of es) c), None),
        connected (set_incoming cn rest)
          (ev ++ map Received (lines_of es ++ ["OK"]))))
  /\ (forall l, is_data l = true -> key_of l = "file" ->
        HasPrefix l "file:" = true).
Proof.
  intros Hes Hin. split; [|exact key_file_is_marker].
  exists (cap (listing (map record_of es))).
  rewrite (readPlaylist_OK cn ev es rest Hes Hin).
  rewrite <- (elems_listing (map record_of es)) at 2.
  destruct (listing (map record_of es)); reflexivity.
Qed.

Lemma records_follow_file_lines_witness :
  exists c w,
    readPlaylist
      (connected (mkConn ["file: x"; "title: Song A"; "file: y"; "title: Song B"; "OK"]
                    None None 0 0) [])
    = (Ret (Some (Slice [Some (<["title" := "Song A"]> {["file" := "x"]});
                         Some (<["title" := "Song B"]> {["file" := "y"]})] c),
            None), w).
Proof.
  destruct (proj1 (records_follow_file_lines
                     (mkConn ["file: x"; "title: Song A"; "file: y"; "title: Song B"; "OK"]
                        None None 0 0)
                     [] [("file: x", ["title: Song A"]); ("file: y", ["title: Song B"])]
                     [] eq_refl eq_refl)) as [c Hc].
  exists c. eexists. rewrite Hc. reflexivity.
Defined.

(** *** Dial *)

(** C9: [Dial] slices the greeting with [line[0:6]] before it compares it.
    For every greeting line of fewer than six bytes (the empty line among
    them) that slice is out of range: [Dial] panics and does not return
    the handshake error "no greeting". *)
Theorem short_greeting_panics (net : Network) (network addr : string)
    (cn : Conn) (line : string) (rest : list string) (ev : list event) :
  net network addr = inl cn ->
  incoming cn = line :: rest ->
  (String.length line < 6)%nat ->
  Dial net network addr ev = (Panic SliceBounds, ev ++ [Received line])
  /\ fst (Dial net network addr ev) <> Ret (None, Some (ProtocolError "no greeting")).
Proof.
  intros Hnet Hin Hlen.
  assert (Dial net network addr ev = (Panic SliceBounds, ev ++ [Received line])) as ->.
  { unfold Dial, ReadLine. rewrite Hnet, Hin. unfold slice_str, len.
    replace (6 <=? Z.of_nat (String.length line)) with false
      by (symmetry; apply Z.leb_gt; lia).
    reflexivity. }
  split; [reflexivity|discriminate].
Qed.

Lemma short_greeting_panics_witness :
  Dial (fun _ _ => inl (mkConn ["OK"] None None 0 0)) "tcp" "127.0.0.1:6600" []
  = (Panic SliceBounds, [Received "OK"]).
Proof.
  apply (proj1 (short_greeting_panics
                  (fun _ _ => inl (mkConn ["OK"] None None 0 0))
                  "tcp" "127.0.0.1:6600" (mkConn ["OK"] None None 0 0) "OK" [] []
                  eq_refl eq_refl ltac:(simpl; lia))).
Defined.

(** *** Close *)

(** C2 (as stated, refuted): after [Close], [Status] does not return an
    error value at all. *)
Lemma status_after_close_returns_no_error :
  ~ exists e,
      fst (Status (snd (Close (connected (mkConn ["OK"] None None 0 0) []))))
      = Ret (None, Some e).
Proof. intros (e & He). vm_compute in He. discriminate He. Qed.

(** C2 (amended): [Close] leaves [c.text] nil, and no operation looks at
    it before using it.  After [Close], every operation that uses the
    connection stops at once with the nil-dereference panic instead of
    returning an error, and the stream is not touched: the world stays as
    [Close] left it.  [PlaylistInfo] with [start < 0 <= end] and [Delete]
    with [start < 0] return their validation error as before, and a second
    [Close] returns nil. *)
Theorem closed_session_dereferences_nil (w : World)
    (Atoi : string -> Z * option errno) :
  let w' := snd (Close w) in
  text (self w') = None
  /\ Status w' = (Panic NilDereference, w')
  /\ CurrentSong w' = (Panic NilDereference, w')
  /\ Ping w' = (Panic NilDereference, w')
  /\ Next w' = (Panic NilDereference, w')
  /\ Previous w' = (Panic NilDereference, w')
  /\ Stop w' = (Panic NilDereference, w')
  /\ Clear w' = (Panic NilDereference, w')
  /\ (forall b, Pause b w' = (Panic NilDereference, w'))
  /\ (forall pos, Play pos w' = (Panic NilDereference, w'))
  /\ (forall id, PlayId id w' = (Panic NilDereference, w'))
  /\ (forall pos time, Seek pos time w' = (Panic NilDereference, w'))
  /\ (forall id time, SeekId id time w' = (Panic NilDereference, w'))
  /\ (forall id, DeleteId id w' = (Panic NilDereference, w'))
  /\ (forall uri, Add uri w' = (Panic NilDereference, w'))
  /\ (forall uri pos, AddId Atoi uri pos w' = (Panic NilDereference, w'))
  /\ (forall start end_,
        PlaylistInfo start end_ w'
        = if (start <? 0) && (0 <=? end_)
          then (Ret (None, Some (NewError "negative start index")), w')
          else (Panic NilDereference, w'))
  /\ (forall start end_,
        Delete start end_ w'
        = if start <? 0
          then (Ret (Some (NewError "negative start index")), w')
          else (Panic NilDereference, w'))
  /\ Close w' = (Ret None, w').
Proof.
  assert (exists ev, snd (Close w) = closed ev) as [ev Hw'].
  { destruct w as [[[cn|]] ev]; unfold Close; simpl.
    - destruct (write_err cn); simpl; eexists; reflexivity.
    - exists ev; reflexivity. }
  cbv zeta. rewrite Hw'. repeat split; try reflexivity.
  - intros []; reflexivity.
  - intros pos. unfold Play. destruct (pos <? 0); reflexivity.
  - intros id. unfold PlayId. destruct (id <? 0); reflexivity.
  - intros uri pos. unfold AddId. destruct (0 <=? pos); reflexivity.
  - intros start end_. unfold PlaylistInfo.
    destruct ((start <? 0) && (0 <=? end_)); [reflexivity|].
    destruct ((0 <=? start) && (end_ <? 0)); reflexivity.
  - intros start end_. unfold Delete.
    destruct (start <? 0); [reflexivity|]. destruct (end_ <? 0); reflexivity.
Qed.

(** *** One command, one response *)

Lemma call_Cmd_ready (format : string) (args : list arg) (cn : Conn) (ev : list event) :
  write_err cn = None ->
  call (Cmd format args) (connected cn ev)
  = (Ret (next_id cn, None), after_Cmd format args cn ev).
Proof. intros Hw. unfold call, Cmd, PrintfLine; simpl. rewrite Hw. reflexivity. Qed.

Lemma for_ReadLine_post {S R : Type} (on_err : error -> R)
    (body : string -> S -> flow S R) (inv : S -> Prop) (post : outcome R -> Prop) :
  (forall l s, inv s ->
     match body l s with Continue s' => inv s' | Leave o => post o end) ->
  (forall e, post (Ret (on_err e))) ->
  forall lines s ev, inv s -> post (fst (for_ReadLine on_err body s lines ev)).
Proof.
  intros Hbody Herr lines.
  induction lines as [|l lines IH]; intros s ev Hs; simpl; [apply Herr|].
  specialize (Hbody l s Hs). destruct (body l s) as [s'|o]; [now apply IH|exact Hbody].
Qed.

Lemma assign_last_fits (s s' : slice) (k v : string) :
  assign_last s k v = Ret s' ->
  (length (elems s) <= cap s)%nat -> (length (elems s') <= cap s')%nat.
Proof.
  unfold assign_last.
  destruct (elems s !! _) as [[m|]|]; try discriminate.
  intros [= <-] H; simpl. now rewrite length_insert.
Qed.

Lemma assign_last_returns_or_panics (s : slice) (k v : string) :
  assign_last s k v <> Block.
Proof. unfold assign_last. destruct (elems s !! _) as [[m|]|]; discriminate. Qed.

Lemma readPlaylist_body_post (l : string) (s : slice) :
  (length (elems s) <= cap s)%nat ->
  match readPlaylist_body l s with
  | Continue s' => (length (elems s') <= cap s')%nat
  | Leave o =>
      o <> Block /\
      forall s' e, o = Ret (Some s', e) -> (length (elems s') <= cap s')%nat
  end.
Proof.
  intros Hs. unfold readPlaylist_body.
  destruct (String.eqb l "OK").
  { split; [discriminate|]. now intros s' e [= <- _]. }
  set (pls := if HasPrefix l "file:" then append1 s (Some ∅) else s).
  assert (length (elems pls) <= cap pls)%nat as Hpls
    by (subst pls; destruct (HasPrefix l "file:"); [now apply append1_fits|assumption]).
  destruct (length (elems pls) =? 0)%nat; [split; [discriminate|intros ? ? [=]]|].
  destruct (Index l ": " <? 0); [split; [discriminate|intros ? ? [=]]|].
  destruct (slice_str l 0 _); [|split; [discriminate|intros ? ? [=]]].
  destruct (slice_str l _ _); [|split; [discriminate|intros ? ? [=]]].
  destruct (assign_last pls s0 s1) as [s'|p|] eqn:Ha.
  - eapply assign_last_fits; eassumption.
  - split; [discriminate|intros ? ? [=]].
  - now apply assign_last_returns_or_panics in Ha.
Qed.

Lemma readPlaylist_post (cn : Conn) (ev : list event)
    (o : outcome (option slice * option error)) (w : World) :
  readPlaylist (connected cn ev) = (o, w) ->
  (exists rest ev', w = connected (set_incoming cn rest) ev')
  /\ o <> Block
  /\ (forall s e, o = Ret (Some s, e) -> (length (elems s) <= cap s)%nat).
Proof.
  unfold readPlaylist. rewrite read_loop_connected.
  pose proof (for_ReadLine_post (fun err => (None, Some err)) readPlaylist_body
                (fun s => (length (elems s) <= cap s)%nat)
                (fun o => o <> Block /\
                   forall s e, o = Ret (Some s, e) -> (length (elems s) <= cap s)%nat)
                readPlaylist_body_post
                ltac:(intros e; split; [discriminate|intros ? ? [=]])
                (incoming cn) (Slice [] 0) ev ltac:(simpl; lia)) as Hpost.
  destruct (for_ReadLine _ _ _ _ _) as [o' [rest ev']].
  intros [= <- <-]. split; [eauto|exact Hpost].
Qed.

Lemma readAttrs_post (cn : Conn) (ev : list event)
    (o : outcome (Attrs * option error)) (w : World) :
  readAttrs (connected cn ev) = (o, w) ->
  (exists rest ev', w = connected (set_incoming cn rest) ev') /\ o <> Block.
Proof.
  unfold readAttrs. rewrite read_loop_connected.
  pose proof (for_ReadLine_post (fun err => (None, Some err)) readAttrs_body
                (fun _ => True) (fun o => o <> Block)) as Hpost.
  assert (forall l (s : gmap string string), True ->
            match readAttrs_body l s with
            | Continue _ => True
            | Leave o => o <> Block
            end) as Hbody.
  { intros l s _. unfold readAttrs_body.
    destruct (String.eqb l "OK"); [discriminate|].
    destruct (Index l ": " <? 0); [discriminate|].
    destruct (slice_str l 0 _); [|discriminate].
    destruct (slice_str l _ _); [exact I|discriminate]. }
  specialize (Hpost Hbody ltac:(discriminate) (incoming cn) ∅ ev I).
  destruct (for_ReadLine _ _ _ _ _) as [o' [rest ev']].
  intros [= <- <-]. split; [eauto|exact Hpost].
Qed.

(** The bracket [StartResponse(id); defer EndResponse(id); body] around a
    body that keeps the connection and its sequencer and does not wait. *)
Lemma response_bracket {A : Type} (body : M A) (id : N) (cn1 cn2 : Conn)
    (ev1 ev2 : list event) (o : outcome A) :
  body (connected cn1 ev1) = (o, connected cn2 ev2) ->
  resp_id cn1 = id -> resp_id cn2 = id -> o <> Block ->
  bind (call' (StartResponse id))
       (fun _ => defer (call' (EndResponse id)) body)
       (connected cn1 ev1)
  = (o, after_EndResponse (connected cn2 ev2)).
Proof.
  intros Hbody Hresp1 Hresp2 Ho.
  unfold bind, call', StartResponse, defer, EndResponse, after_EndResponse; simpl.
  rewrite Hresp1, N.eqb_refl; simpl. rewrite Hbody.
  simpl. rewrite Hresp2, N.eqb_refl.
  destruct o; [reflexivity|reflexivity|contradiction].
Qed.

Lemma bind_Cmd_ready {B : Type} (format : string) (args : list arg)
    (k : N * option error -> M B) (cn : Conn) (ev : list event) :
  write_err cn = None ->
  bind (call (Cmd format args)) k (connected cn ev)
  = k (next_id cn, None) (after_Cmd format args cn ev).
Proof. intros Hw. unfold bind. now rewrite call_Cmd_ready. Qed.

Lemma reslice_in_range (recs : list Attrs) (c : nat) (lo hi : Z) :
  0 <= lo <= hi -> hi <= Z.of_nat (length recs) -> (length recs <= c)%nat ->
  reslice (Some (Slice recs c)) lo hi
  = Some (Some (Slice (take (Z.to_nat (hi - lo)) (drop (Z.to_nat lo) recs))
                      (c - Z.to_nat lo))).
Proof.
  intros Hlo Hhi Hc. unfold reslice; cbn [elems cap].
  replace ((0 <=? lo) && (lo <=? hi) && (hi <=? Z.of_nat c)) with true
    by (symmetry; rewrite !andb_true_iff, !Z.leb_le; lia).
  rewrite drop_app_le by lia.
  rewrite take_app_le by (rewrite length_drop; lia).
  reflexivity.
Qed.

(** *** PlaylistInfo *)

(** C3: the selection modes of [PlaylistInfo(start, end)] on a connection
    that is ready for a command.  With [start < 0 <= end] it returns the
    validation error and the world is untouched (nothing is sent).  With
    [start >= 0 > end] it sends [playlistinfo start] and the result is what
    [readPlaylist] decodes.  With both negative it sends [playlistinfo]
    and returns what [readPlaylist] decodes, unsliced.  With both
    non-negative it sends [playlistinfo] and, when the decode succeeds with
    records [recs] and [start <= end <= len(recs)], returns the records
    from [start] up to [end]. *)
Theorem PlaylistInfo_modes (cn : Conn) (ev : list event) (start end_ : Z) :
  ready cn ->
  (start < 0 -> 0 <= end_ ->
     PlaylistInfo start end_ (connected cn ev)
     = (Ret (None, Some (NewError "negative start index")), connected cn ev))
  /\ (0 <= start -> end_ < 0 ->
        PlaylistInfo start end_ (connected cn ev)
        = (let (o, w) :=
             readPlaylist (after_Cmd "playlistinfo %d" [ArgInt start] cn ev) in
           (o, after_EndResponse w)))
  /\ (start < 0 -> end_ < 0 ->
        PlaylistInfo start end_ (connected cn ev)
        = (let (o, w) := readPlaylist (after_Cmd "playlistinfo" [] cn ev) in
           (o, after_EndResponse w)))
  /\ (0 <= start -> 0 <= end_ ->
        forall recs c w,
          readPlaylist (after_Cmd "playlistinfo" [] cn ev)
          = (Ret (Some (Slice recs c), None), w) ->
          start <= end_ <= Z.of_nat (length recs) ->
          PlaylistInfo start end_ (connected cn ev)
          = (Ret (Some (Slice (take (Z.to_nat (end_ - start))
                                 (drop (Z.to_nat start) recs))
                              (c - Z.to_nat start)), None),
             after_EndResponse w)).
Proof.
  intros [Hw Hr]. repeat split.
  - intros Hs He. unfold PlaylistInfo.
    replace ((start <? 0) && (0 <=? end_)) with true
      by (symmetry; rewrite andb_true_iff, Z.ltb_lt, Z.leb_le; lia).
    reflexivity.
  - intros Hs He. unfold PlaylistInfo.
    replace ((start <? 0) && (0 <=? end_)) with false
      by (symmetry; rewrite andb_false_iff, Z.ltb_ge; lia).
    replace ((0 <=? start) && (end_ <? 0)) with true
      by (symmetry; rewrite andb_true_iff, Z.ltb_lt, Z.leb_le; lia).
    rewrite bind_Cmd_ready by assumption.
    destruct (readPlaylist (after_Cmd "playlistinfo %d" [ArgInt start] cn ev))
      as [o w] eqn:Hrp.
    destruct (readPlaylist_post _ _ _ _ Hrp) as ((rest & ev' & ->) & Ho & _).
    now apply response_bracket.
  - intros Hs He. unfold PlaylistInfo.
    replace ((start <? 0) && (0 <=? end_)) with false
      by (symmetry; rewrite andb_false_iff, Z.leb_gt; lia).
    replace ((0 <=? start) && (end_ <? 0)) with false
      by (symmetry; rewrite andb_false_iff, Z.leb_gt; lia).
    rewrite bind_Cmd_ready by assumption.
    destruct (readPlaylist (after_Cmd "playlistinfo" [] cn ev)) as [o w] eqn:Hrp.
    destruct (readPlaylist_post _ _ _ _ Hrp) as ((rest & ev' & ->) & Ho & _).
    apply response_bracket; try assumption; try reflexivity.
    unfold bind. unfold after_Cmd in Hrp. rewrite Hrp.
    destruct o as [[pls err]| |]; try reflexivity.
    replace (start <? 0) with true by (symmetry; apply Z.ltb_lt; lia).
    rewrite orb_true_r. reflexivity.
  - intros Hs He recs c w Hrp Hrange. unfold PlaylistInfo.
    replace ((start <? 0) && (0 <=? end_)) with false
      by (symmetry; rewrite andb_false_iff, Z.ltb_ge; lia).
    replace ((0 <=? start) && (end_ <? 0)) with false
      by (symmetry; rewrite andb_false_iff, !Z.ltb_ge; lia).
    rewrite bind_Cmd_ready by assumption.
    destruct (readPlaylist_post _ _ _ _ Hrp) as ((rest & ev' & ->) & _ & Hfit).
    specialize (Hfit _ _ eq_refl); simpl in Hfit.
    apply response_bracket; try assumption; try reflexivity; [|discriminate].
    unfold bind. unfold after_Cmd in Hrp. rewrite Hrp. cbn -[reslice].
    replace (start <? 0) with false by (symmetry; apply Z.ltb_ge; lia).
    replace (end_ <? 0) with false by (symmetry; apply Z.ltb_ge; lia).
    cbn -[reslice]. rewrite reslice_in_range by lia. reflexivity.
Qed.

Lemma PlaylistInfo_modes_witness :
  fst (PlaylistInfo 0 2
         (connected (mkConn ["file: a"; "file: b"; "file: c"; "file: d"; "file: e"; "OK"]
                       None None 0 0) []))
  = Ret (Some (Slice [Some {["file" := "a"]}; Some {["file" := "b"]}] 8), None).
Proof.
  pose proof (proj2 (proj2 (proj2
    (PlaylistInfo_modes
       (mkConn ["file: a"; "file: b"; "file: c"; "file: d"; "file: e"; "OK"]
          None None 0 0) [] 0 2 (conj eq_refl eq_refl))))
    ltac:(lia) ltac:(lia) _ _ _ eq_refl) as H.
  rewrite H by (simpl; lia). reflexivity.
Defined.

Lemma reslice_out_of_range (recs : list Attrs) (c : nat) (lo hi : Z) :
  hi < lo \/ Z.of_nat c < hi ->
  reslice (Some (Slice recs c)) lo hi = None.
Proof.
  intros H. unfold reslice; cbn [elems cap].
  replace ((0 <=? lo) && (lo <=? hi) && (hi <=? Z.of_nat c)) with false; [reflexivity|].
  symmetry. rewrite !andb_false_iff, !Z.leb_gt. lia.
Qed.

(** C10 (as stated, refuted): on a listing of three records, [end = 4]
    exceeds the number of records, yet [pls[0:4]] is in range, because the
    slice [readPlaylist] built by appending has capacity 4: the call
    returns four elements, the last one a nil map. *)
Lemma slice_beyond_length_in_range :
  fst (PlaylistInfo 0 4
         (connected (mkConn ["file: x"; "file: y"; "file: z"; "OK"] None None 0 0) []))
  = Ret (Some (Slice [Some {["file" := "x"]}; Some {["file" := "y"]};
                      Some {["file" := "z"]}; None] 4), None).
Proof. vm_compute. reflexivity. Qed.

(** C10 (amended): with [start >= 0] and [end >= 0], [PlaylistInfo] takes
    [pls[start:end]] without a check of its own.  The run-time check of the
    slice expression is against the capacity of the decoded slice, which is
    at least its length: when [start > end] or [end] exceeds the capacity
    the call panics (after the deferred [EndResponse]) and returns no
    error; when [start <= end <= cap(pls)] it returns the window, whose
    elements behind the decoded records are nil maps. *)
Theorem PlaylistInfo_slice_bounds (cn : Conn) (ev : list event)
    (start end_ : Z) (recs : list Attrs) (c : nat) (w : World) :
  ready cn -> 0 <= start -> 0 <= end_ ->
  readPlaylist (after_Cmd "playlistinfo" [] cn ev)
  = (Ret (Some (Slice recs c), None), w) ->
  (length recs <= c)%nat
  /\ (end_ < start \/ Z.of_nat c < end_ ->
        PlaylistInfo start end_ (connected cn ev)
        = (Panic SliceBounds, after_EndResponse w))
  /\ (start <= end_ <= Z.of_nat c ->
        PlaylistInfo start end_ (connected cn ev)
        = (Ret (Some (Slice
                  (take (Z.to_nat (end_ - start))
                     (drop (Z.to_nat start)
                        (recs ++ replicate (c - length recs) None)))
                  (c - Z.to_nat start)), None),
           after_EndResponse w)).
Proof.
  intros [Hw Hr] Hs He Hrp.
  destruct (readPlaylist_post _ _ _ _ Hrp) as ((rest & ev' & ->) & _ & Hfit).
  specialize (Hfit _ _ eq_refl); simpl in Hfit.
  split; [exact Hfit|].
  assert (forall o,
            (match reslice (Some (Slice recs c)) start end_ with
             | Some window => Ret (window, None)
             | None => Panic SliceBounds
             end) = o -> o <> Block ->
            PlaylistInfo start end_ (connected cn ev)
            = (o, after_EndResponse
                    (connected (set_incoming (set_next_id cn (uint_succ (next_id cn))) rest) ev')))
    as Hrun.
  { intros o Ho Hnb. unfold PlaylistInfo.
    replace ((start <? 0) && (0 <=? end_)) with false
      by (symmetry; rewrite andb_false_iff, Z.ltb_ge; lia).
    replace ((0 <=? start) && (end_ <? 0)) with false
      by (symmetry; rewrite andb_false_iff, !Z.ltb_ge; lia).
    rewrite bind_Cmd_ready by assumption.
    apply response_bracket; try assumption; try reflexivity.
    unfold bind. unfold after_Cmd in Hrp. rewrite Hrp. cbn -[reslice].
    replace (start <? 0) with false by (symmetry; apply Z.ltb_ge; lia).
    replace (end_ <? 0) with false by (symmetry; apply Z.ltb_ge; lia).
    cbn -[reslice]. rewrite <- Ho.
    destruct (reslice (Some (Slice recs c)) start end_); reflexivity. }
  split.
  - intros Hout. apply Hrun; [|discriminate].
    now rewrite reslice_out_of_range.
  - intros Hin. apply Hrun; [|discriminate].
    unfold reslice; cbn [elems cap].
    replace ((0 <=? start) && (start <=? end_) && (end_ <=? Z.of_nat c)) with true
      by (symmetry; rewrite !andb_true_iff, !Z.leb_le; lia).
    reflexivity.
Qed.

Lemma PlaylistInfo_slice_bounds_witness :
  fst (PlaylistInfo 0 5
         (connected (mkConn ["file: x"; "file: y"; "file: z"; "OK"] None None 0 0) []))
  = Panic SliceBounds.
Proof.
  pose proof (proj1 (proj2
    (PlaylistInfo_slice_bounds
       (mkConn ["file: x"; "file: y"; "file: z"; "OK"] None None 0 0) [] 0 5 _ _ _
       (conj eq_refl eq_refl) ltac:(lia) ltac:(lia) eq_refl))) as H.
  rewrite H by (right; simpl; lia). reflexivity.
Defined.

(** *** AddId *)

Lemma uint_succ_neq (n : N) : uint_succ n <> n.
Proof.
  unfold uint_succ. intros H.
  pose proof (N.mod_upper_bound (n + 1) (2 ^ 32) ltac:(discriminate)) as Hlt.
  pose proof (N.div_mod (n + 1) (2 ^ 32) ltac:(discriminate)) as Hdm.
  rewrite H in Hlt, Hdm.
  assert ((n + 1) / 2 ^ 32 = 0 \/ 1 <= (n + 1) / 2 ^ 32)%N as [Hq | Hq] by lia.
  - rewrite Hq in Hdm. lia.
  - nia.
Qed.

(** C4: [AddId "song.ogg" 3] on a fresh connection whose server answers
    [Id: 5], [OK].  The call writes the positional command and then the
    non-positional one, each under its own id, keeps the second id only
    and opens the response bracket for it, although the bracket of the
    first id was never opened and closed: [StartResponse] waits for ever,
    no line is read and no id is returned.  The same call without a
    position reads the response and returns the id. *)
Lemma positional_AddId_reads_nothing :
  AddId strconv.Atoi "song.ogg" 3
    (connected (mkConn ["Id: 5"; "OK"] None None 0 0) [])
  = (Block,
     connected (mkConn ["Id: 5"; "OK"] None None 2 0)
       [Sent "addid %q %d" [ArgString "song.ogg"; ArgInt 3];
        Sent "addid %q" [ArgString "song.ogg"]])
  /\ AddId strconv.Atoi "song.ogg" (-1)
       (connected (mkConn ["Id: 5"; "OK"] None None 0 0) [])
     = (Ret (5, None),
        connected (mkConn [] None None 1 1)
          [Sent "addid %q" [ArgString "song.ogg"];
           Received "Id: 5"; Received "OK"]).
Proof. split; vm_compute; reflexivity. Qed.

Section AddIdFacts.

Variable Atoi : string -> Z * option errno.

Lemma AddId_sent (uri : string) (pos : Z) (cn : Conn) (ev : list event) :
  write_err cn = None ->
  AddId Atoi uri pos (connected cn ev)
  = bind (call' (StartResponse (addid_id pos cn)))
         (fun _ => defer (call' (EndResponse (addid_id pos cn))) (AddId_decode Atoi))
         (sent_addid uri pos cn ev).
Proof.
  intros Hw. unfold AddId, sent_addid, addid_id. destruct (0 <=? pos).
  - rewrite bind_Cmd_ready by assumption. unfold after_Cmd at 1.
    rewrite bind_Cmd_ready by assumption. reflexivity.
  - unfold bind at 1, ret. rewrite bind_Cmd_ready by assumption. reflexivity.
Qed.

Lemma sent_addid_connected (uri : string) (pos : Z) (cn : Conn) (ev : list event) :
  exists cn1 ev1,
    sent_addid uri pos cn ev = connected cn1 ev1
    /\ resp_id cn1 = resp_id cn
    /\ ev1 = ev ++ (if 0 <=? pos
                    then [Sent "addid %q %d" [ArgString uri; ArgInt pos]]
                    else [])
               ++ [Sent "addid %q" [ArgString uri]].
Proof.
  unfold sent_addid, after_Cmd. destruct (0 <=? pos); do 2 eexists;
    (split; [reflexivity|split; [reflexivity|]]).
  - now rewrite <- app_assoc.
  - reflexivity.
Qed.

(** X17: on a connection ready for a command, [AddId(uri, pos)] writes the
    positional command only when [pos >= 0] and the non-positional command
    after it in every case, each under an id of its own, and opens the
    response bracket for the id of the non-positional command alone.
    With [pos < 0] the response is decoded right after that command and
    the bracket is closed.  With [pos >= 0] no line is read: the bracket
    of the first id is never opened and closed, so [StartResponse] waits
    for ever. *)
Theorem AddId_commands (cn : Conn) (ev : list event) (uri : string) (pos : Z) :
  ready cn ->
  wire (sent_addid uri pos cn ev)
  = ev ++ (if 0 <=? pos
           then [Sent "addid %q %d" [ArgString uri; ArgInt pos]]
           else [])
       ++ [Sent "addid %q" [ArgString uri]]
  /\ (0 <= pos ->
        AddId Atoi uri pos (connected cn ev) = (Block, sent_addid uri pos cn ev))
  /\ (pos < 0 ->
        AddId Atoi uri pos (connected cn ev)
        = (let (o, w) := AddId_decode Atoi (sent_addid uri pos cn ev) in
           (o, after_EndResponse w))).
Proof.
  intros [Hw Hr].
  destruct (sent_addid_connected uri pos cn ev) as (cn1 & ev1 & Hs & Hr1 & Hev).
  repeat split.
  - rewrite Hs. exact Hev.
  - intros Hpos. rewrite AddId_sent by assumption. rewrite Hs.
    unfold bind, call', StartResponse, addid_id; simpl.
    replace (0 <=? pos) with true by (symmetry; apply Z.leb_le; lia).
    rewrite Hr1, Hr.
    destruct (N.eqb_spec (next_id cn) (uint_succ (next_id cn))) as [Heq|]; [|reflexivity].
    symmetry in Heq. now apply uint_succ_neq in Heq.
  - intros Hpos. rewrite AddId_sent by assumption. rewrite Hs.
    destruct (AddId_decode Atoi (connected cn1 ev1)) as [o w] eqn:Hd.
    assert ((exists rest ev', w = connected (set_incoming cn1 rest) ev') /\ o <> Block)
      as [(rest & ev' & ->) Ho].
    { unfold AddId_decode, bind in Hd.
      destruct (readAttrs (connected cn1 ev1)) as [o1 w1] eqn:Hra.
      destruct (readAttrs_post _ _ _ _ Hra) as [Hw1 Ho1].
      destruct o1 as [[attrs [err|]]| |]; try contradiction.
      - injection Hd as <- <-. split; [assumption|discriminate].
      - destruct (lookup_ok attrs "Id"); injection Hd as <- <-;
          (split; [assumption|discriminate]).
      - injection Hd as <- <-. split; [assumption|discriminate]. }
    apply response_bracket; try assumption.
    + unfold addid_id. replace (0 <=? pos) with false by (symmetry; apply Z.leb_gt; lia).
      congruence.
    + unfold addid_id. replace (0 <=? pos) with false by (symmetry; apply Z.leb_gt; lia).
      simpl. congruence.
Qed.

(** C7: when the flat decode in [AddId] has succeeded with the map
    [attrs], the result is decided by [attrs["Id"]]: without the key
    [AddId] returns -1 and the [ProtocolError] "addid did not return Id";
    with a value [strconv.Atoi] accepts it returns that integer and no
    error; with any other value it returns what [Atoi] returns, a
    [*strconv.NumError].  Neither failure is the error an [ACK] line is
    reported with. *)
Theorem AddId_requires_Id (cn : Conn) (ev : list event) (uri : string) (pos : Z)
    (attrs : Attrs) (w : World) :
  write_err cn = None ->
  resp_id cn = addid_id pos cn ->
  readAttrs (sent_addid uri pos cn ev) = (Ret (attrs, None), w) ->
  (lookup_ok attrs "Id" = None ->
     AddId Atoi uri pos (connected cn ev)
     = (Ret (-1, Some (ProtocolError "addid did not return Id")),
        after_EndResponse w))
  /\ (forall tok n, lookup_ok attrs "Id" = Some tok -> Atoi tok = (n, None) ->
        AddId Atoi uri pos (connected cn ev)
        = (Ret (n, None), after_EndResponse w))
  /\ (forall tok n e, lookup_ok attrs "Id" = Some tok -> Atoi tok = (n, Some e) ->
        AddId Atoi uri pos (connected cn ev)
        = (Ret (n, Some (NumError tok e)), after_EndResponse w))
  /\ (forall ack, HasPrefix ack "ACK" = true ->
        ProtocolError "addid did not return Id" <> cant_parse ack
        /\ forall tok e, NumError tok e <> cant_parse ack).
Proof.
  intros Hw Hr Hra.
  destruct (sent_addid_connected uri pos cn ev) as (cn1 & ev1 & Hs & Hr1 & _).
  rewrite Hs in Hra.
  destruct (readAttrs_post _ _ _ _ Hra) as ((rest & ev' & ->) & _).
  assert (forall r,
            AddId_decode Atoi (connected cn1 ev1)
            = (Ret r, connected (set_incoming cn1 rest) ev') ->
            AddId Atoi uri pos (connected cn ev)
            = (Ret r, after_EndResponse (connected (set_incoming cn1 rest) ev')))
    as Hrun.
  { intros r Hd. rewrite AddId_sent by assumption. rewrite Hs.
    apply response_bracket; try assumption; try discriminate; simpl; congruence. }
  repeat split.
  - intros Hl. apply Hrun. unfold AddId_decode, bind. rewrite Hra, Hl. reflexivity.
  - intros tok n Hl Ha. apply Hrun. unfold AddId_decode, bind.
    rewrite Hra, Hl. unfold strconv_Atoi. rewrite Ha. reflexivity.
  - intros tok n e Hl Ha. apply Hrun. unfold AddId_decode, bind.
    rewrite Hra, Hl. unfold strconv_Atoi. rewrite Ha. reflexivity.
  - unfold cant_parse; cbn. discriminate.
  - unfold cant_parse. discriminate.
Qed.

End AddIdFacts.

Lemma AddId_commands_witness :
  AddId strconv.Atoi "song.ogg" 0
    (connected (mkConn ["Id: 5"; "OK"] None None 7 7) [])
  = (Block,
     connected (mkConn ["Id: 5"; "OK"] None None 9 7)
       [Sent "addid %q %d" [ArgString "song.ogg"; ArgInt 0];
        Sent "addid %q" [ArgString "song.ogg"]]).
Proof.
  apply (proj1 (proj2 (AddId_commands strconv.Atoi
                         (mkConn ["Id: 5"; "OK"] None None 7 7) [] "song.ogg" 0
                         (conj eq_refl eq_refl)))).
  lia.
Defined.

Lemma AddId_requires_Id_witness :
  AddId strconv.Atoi "song.ogg" (-1)
    (connected (mkConn ["Id: 12"; "OK"] None None 0 0) [])
  = (Ret (12, None),
     connected (mkConn [] None None 1 1)
       [Sent "addid %q" [ArgString "song.ogg"]; Received "Id: 12"; Received "OK"]).
Proof.
  apply (proj1 (proj2 (AddId_requires_Id strconv.Atoi
                         (mkConn ["Id: 12"; "OK"] None None 0 0) [] "song.ogg" (-1)
                         (Some {["Id" := "12"]})
                         (connected (mkConn [] None None 1 0)
                            [Sent "addid %q" [ArgString "song.ogg"];
                             Received "Id: 12"; Received "OK"])
                         eq_refl eq_refl eq_refl)) "12" 12); reflexivity.
Defined.

(** *** Concrete runs *)

Example flat_response_two_attributes :
  fst (readAttrs (connected (mkConn ["a: 1"; "b: 2"; "OK"] None None 0 0) []))
  = Ret (Some (<["b" := "2"]> {["a" := "1"]}), None).
Proof. vm_compute. reflexivity. Qed.

(** An [ACK] line that happens to contain [": "] is not even an error: it
    is stored as an attribute and the decoder reads on. *)
Example ack_line_with_delimiter_is_data :
  readAttrs (connected (mkConn ["ACK [2@0] {play} Bad song index: 7"; "OK"; "next"]
                          None None 0 0) [])
  = (Ret (Some {["ACK [2@0] {play} Bad song index" := "7"]}, None),
     connected (mkConn ["next"] None None 0 0)
       [Received "ACK [2@0] {play} Bad song index: 7"; Received "OK"]).
Proof. vm_compute. reflexivity. Qed.

Example listing_without_marker_fails :
  fst (readPlaylist (connected (mkConn ["title: Song A"; "OK"] None None 0 0) []))
  = Ret (None, Some (ProtocolError "unexpected: title: Song A")).
Proof. vm_compute. reflexivity. Qed.

Example end_of_stream_is_EOF :
  fst (readAttrs (connected (mkConn ["volume: 50"] None None 0 0) []))
  = Ret (None, Some EOF).
Proof. vm_compute. reflexivity. Qed.

Example single_position_listing :
  PlaylistInfo 2 (-1) (connected (mkConn ["file: c"; "Pos: 2"; "OK"] None None 0 0) [])
  = (Ret (Some (Slice [Some (<["Pos" := "2"]> {["file" := "c"]})] 1), None),
     connected (mkConn [] None None 1 1)
       [Sent "playlistinfo %d" [ArgInt 2];
        Received "file: c"; Received "Pos: 2"; Received "OK"]).
Proof. vm_compute. reflexivity. Qed.

Example Previous_sends_next :
  Previous (connected (mkConn ["OK"] None None 0 0) [])
  = (Ret None, connected (mkConn [] None None 1 1) [Sent "next" []; Received "OK"]).
Proof. vm_compute. reflexivity. Qed.

Example Play_negative_sends_two_commands :
  Play (-1) (connected (mkConn ["OK"; "OK"] None None 0 0) [])
  = (Ret None,
     connected (mkConn [] None None 2 2)
       [Sent "play" []; Received "OK"; Sent "play %d" [ArgInt (-1)]; Received "OK"]).
Proof. vm_compute. reflexivity. Qed.

Example Close_twice :
  let w := snd (Close (connected (mkConn [] None None 0 0) [])) in
  w = closed [Sent "close" []; Closed] /\ Close w = (Ret None, w).
Proof. split; reflexivity. Qed.

(* ===================================================================== *)
(** ** Further properties of the client                                   *)
(* ===================================================================== *)

(** *** Control commands: [okCmd] and [readOKLine] *)

Lemma ready_answered (cn : Conn) (rest : list string) :
  write_err cn = None -> ready (answered cn rest).
Proof. intros Hw. split; [exact Hw|reflexivity]. Qed.

Lemma okCmd_line (format : string) (args : list arg) (cn : Conn) (ev : list event)
    (line : string) (rest : list string) :
  ready cn -> incoming cn = line :: rest ->
  okCmd format args (connected cn ev)
  = (Ret (ok_or_unexpected line),
     connected (answered cn rest) (ev ++ [Sent format args; Received line])).
Proof.
  intros [Hw Hr] Hin. unfold okCmd. rewrite bind_Cmd_ready by assumption.
  cbv beta iota. unfold after_Cmd.
  rewrite (response_bracket readOKLine (next_id cn)
             (set_next_id cn (uint_succ (next_id cn)))
             (set_incoming (set_next_id cn (uint_succ (next_id cn))) rest)
             (ev ++ [Sent format args])
             ((ev ++ [Sent format args]) ++ [Received line])
             (Ret (ok_or_unexpected line))); try assumption; try discriminate.
  - unfold after_EndResponse, answered; simpl. rewrite Hr, <- app_assoc. reflexivity.
  - unfold readOKLine, bind, call, ReadLine, ok_or_unexpected; simpl. rewrite Hin.
    destruct (String.eqb line "OK"); reflexivity.
Qed.

Lemma okCmd_EOF (format : string) (args : list arg) (cn : Conn) (ev : list event) :
  ready cn -> incoming cn = [] ->
  okCmd format args (connected cn ev)
  = (Ret (Some EOF), connected (answered cn []) (ev ++ [Sent format args])).
Proof.
  intros [Hw Hr] Hin. unfold okCmd. rewrite bind_Cmd_ready by assumption.
  cbv beta iota. unfold after_Cmd.
  rewrite (response_bracket readOKLine (next_id cn)
             (set_next_id cn (uint_succ (next_id cn)))
             (set_next_id cn (uint_succ (next_id cn)))
             (ev ++ [Sent format args]) (ev ++ [Sent format args])
             (Ret (Some EOF))); try assumption; try discriminate.
  - unfold after_EndResponse, answered, set_resp_id, set_next_id; simpl.
    rewrite Hr, Hin. reflexivity.
  - unfold readOKLine, bind, call, ReadLine; simpl. rewrite Hin. reflexivity.
Qed.

(** X1: on a connection ready for a command, [okCmd] writes exactly its one
    command line and reads at most one line.  The line [OK] gives a nil
    error; any other line, an [ACK] line included, gives the
    [ProtocolError] "unexpected response: " followed by the whole line,
    and the lines after it stay unread; with no line left the error is
    [os.EOF].  In each case the connection is ready for the next
    command. *)
Theorem okCmd_round (format : string) (args : list arg) (cn : Conn) (ev : list event) :
  ready cn ->
  (incoming cn = [] ->
     okCmd format args (connected cn ev)
     = (Ret (Some EOF), connected (answered cn []) (ev ++ [Sent format args])))
  /\ (forall line rest, incoming cn = line :: rest ->
        okCmd format args (connected cn ev)
        = (Ret (if String.eqb line "OK" then None
                else Some (ProtocolError ("unexpected response: " +:+ line))),
           connected (answered cn rest)
             (ev ++ [Sent format args; Received line])))
  /\ (forall rest, ready (answered cn rest)).
Proof.
  intros Hready. split; [|split].
  - now apply okCmd_EOF.
  - intros line rest Hin. now apply okCmd_line.
  - intros rest. apply ready_answered, Hready.
Qed.

Lemma okCmd_round_witness :
  okCmd "stop" [] (connected (mkConn ["ACK [5@0] {} unknown command"; "OK"] None None 3 3) [])
  = (Ret (Some (ProtocolError "unexpected response: ACK [5@0] {} unknown command")),
     connected (mkConn ["OK"] None None 4 4)
       [Sent "stop" []; Received "ACK [5@0] {} unknown command"]).
Proof.
  apply (proj1 (proj2 (okCmd_round "stop" []
                         (mkConn ["ACK [5@0] {} unknown command"; "OK"] None None 3 3) []
                         (conj eq_refl eq_refl)))
               "ACK [5@0] {} unknown command" ["OK"] eq_refl).
Defined.

(** X2: what each control command puts on the wire.  On a ready connection
    with a line to read, every one of them is a single [okCmd] round with
    the command line listed here; [Previous] writes [next], the same line
    as [Next]; [PlayId] drops its argument when it is negative; [Delete]
    with [start >= 0] writes one or two positions according to the sign
    of [end], whatever their order. *)
Theorem control_commands_send (cn : Conn) (ev : list event)
    (line : string) (rest : list string) :
  ready cn -> incoming cn = line :: rest ->
  let w := connected cn ev in
  let done format args :=
    (Ret (ok_or_unexpected line),
     connected (answered cn rest) (ev ++ [Sent format args; Received line])) in
  Ping w = done "ping" []
  /\ Next w = done "next" []
  /\ Previous w = done "next" []
  /\ Stop w = done "stop" []
  /\ Clear w = done "clear" []
  /\ Pause true w = done "pause 1" []
  /\ Pause false w = done "pause 0" []
  /\ (forall id, PlayId id w
                 = if id <? 0 then done "playid" []
                   else done "playid %d" [ArgInt id])
  /\ (forall pos time, Seek pos time w = done "seek %d %d" [ArgInt pos; ArgInt time])
  /\ (forall id time, SeekId id time w = done "seekid %d %d" [ArgInt id; ArgInt time])
  /\ (forall id, DeleteId id w = done "deleteid %d" [ArgInt id])
  /\ (forall uri, Add uri w = done "add %q" [ArgString uri])
  /\ (forall start end_, 0 <= start ->
        Delete start end_ w
        = if end_ <? 0 then done "delete %d" [ArgInt start]
          else done "delete %d %d" [ArgInt start; ArgInt end_])
  /\ (forall pos, 0 <= pos -> Play pos w = done "play %d" [ArgInt pos]).
Proof.
  intros Hready Hin w done.
  assert (forall format args, okCmd format args w = done format args) as Hok
    by (intros; now apply okCmd_line).
  repeat split; try apply Hok.
  - intros id. unfold PlayId. destruct (id <? 0); apply Hok.
  - intros pos time. apply Hok.
  - intros id time. apply Hok.
  - intros id. apply Hok.
  - intros uri. apply Hok.
  - intros start end_ Hs. unfold Delete.
    replace (start <? 0) with false by (symmetry; apply Z.ltb_ge; lia).
    destruct (end_ <? 0); apply Hok.
  - intros pos Hpos. unfold Play.
    replace (pos <? 0) with false by (symmetry; apply Z.ltb_ge; lia).
    unfold bind at 1, ret. apply Hok.
Qed.

Lemma control_commands_send_witness :
  Previous (connected (mkConn ["OK"] None None 0 0) [])
  = (Ret None, connected (mkConn [] None None 1 1) [Sent "next" []; Received "OK"]).
Proof.
  apply (proj1 (proj2 (proj2 (control_commands_send
                                (mkConn ["OK"] None None 0 0) [] "OK" []
                                (conj eq_refl eq_refl) eq_refl)))).
Defined.

(** X3: [Play] with a negative position does not stop after [play]: it
    writes [play], reads one line and drops the error that line may give,
    then writes [play pos] with the negative position and reads a second
    line; the error returned is that of the second line alone. *)
Theorem Play_negative_runs_twice (cn : Conn) (ev : list event) (pos : Z)
    (l1 l2 : string) (rest : list string) :
  ready cn -> pos < 0 -> incoming cn = l1 :: l2 :: rest ->
  Play pos (connected cn ev)
  = (Ret (ok_or_unexpected l2),
     connected (answered (answered cn (l2 :: rest)) rest)
       (ev ++ [Sent "play" []; Received l1;
               Sent "play %d" [ArgInt pos]; Received l2])).
Proof.
  intros Hready Hpos Hin. unfold Play.
  replace (pos <? 0) with true by (symmetry; apply Z.ltb_lt; lia).
  unfold bind. rewrite (okCmd_line "play" [] cn ev l1 (l2 :: rest)) by assumption.
  unfold ret.
  rewrite (okCmd_line "play %d" [ArgInt pos] (answered cn (l2 :: rest)) _ l2 rest);
    [|apply ready_answered, Hready|reflexivity].
  rewrite <- app_assoc. reflexivity.
Qed.

Lemma Play_negative_runs_twice_witness :
  Play (-1) (connected (mkConn ["ACK first"; "OK"; "x"] None None 0 0) [])
  = (Ret None,
     connected (mkConn ["x"] None None 2 2)
       [Sent "play" []; Received "ACK first";
        Sent "play %d" [ArgInt (-1)]; Received "OK"]).
Proof.
  apply (Play_negative_runs_twice (mkConn ["ACK first"; "OK"; "x"] None None 0 0)
           [] (-1) "ACK first" "OK" ["x"] (conj eq_refl eq_refl));
    [lia|reflexivity].
Defined.

(** *** The flat decoder on every input *)

Lemma flat_block_cases (lines : list string) :
  (exists ls rest, lines = ls ++ "OK" :: rest /\ forallb is_data ls = true)
  \/ (exists ls bad rest,
        lines = ls ++ bad :: rest /\ forallb is_data ls = true
        /\ String.eqb bad "OK" = false /\ Index bad ": " < 0)
  \/ forallb is_data lines = true.
Proof.
  induction lines as [|l lines IH]; [right; right; reflexivity|].
  destruct (String.eqb l "OK") eqn:Hok.
  { apply String.eqb_eq in Hok as ->. left. exists [], lines. split; reflexivity. }
  destruct (Z.ltb_spec (Index l ": ") 0) as [Hz|Hz].
  { right; left. exists [], l, lines. repeat split; assumption. }
  assert (is_data l = true) as Hl
    by (unfold is_data; rewrite Hok; simpl; now apply Z.leb_le).
  destruct IH as [(ls & rest & -> & Hls) | [(ls & bad & rest & -> & Hls & Hb & Hbz) | Hall]].
  - left. exists (l :: ls), rest. split; [reflexivity|]. simpl. now rewrite Hl.
  - right; left. exists (l :: ls), bad, rest.
    repeat split; try assumption. simpl. now rewrite Hl.
  - right; right. simpl. now rewrite Hl.
Qed.

Lemma readAttrs_EOF (cn : Conn) (ev : list event) :
  forallb is_data (incoming cn) = true ->
  readAttrs (connected cn ev)
  = (Ret (None, Some EOF),
     connected (set_incoming cn []) (ev ++ map Received (incoming cn))).
Proof.
  intros Hls. unfold readAttrs. rewrite read_loop_connected.
  rewrite <- (app_nil_r (incoming cn)) at 1.
  rewrite readAttrs_data_lines by assumption. reflexivity.
Qed.

(** X4: [readAttrs] returns on every input, in one of three ways.  If the
    lines up to the first [OK] all have a [": "], it returns the map built
    from them and a nil error, and has read up to that [OK].  If a line
    without [": "] comes first, it returns a nil map and the error "can't
    parse line: " with that line, and has read up to that line.  If the
    lines run out, it returns a nil map and [os.EOF].  It never panics on
    its slice expressions, never returns a map together with an error, and
    touches nothing but the lines it reads. *)
Theorem readAttrs_cases (cn : Conn) (ev : list event) :
  (exists ls rest,
     incoming cn = ls ++ "OK" :: rest /\ forallb is_data ls = true
     /\ readAttrs (connected cn ev)
        = (Ret (Some (attrs_of ls ∅), None),
           connected (set_incoming cn rest) (ev ++ map Received (ls ++ ["OK"]))))
  \/ (exists ls bad rest,
        incoming cn = ls ++ bad :: rest /\ forallb is_data ls = true
        /\ String.eqb bad "OK" = false /\ Index bad ": " < 0
        /\ readAttrs (connected cn ev)
           = (Ret (None, Some (ProtocolError ("can't parse line: " +:+ bad))),
              connected (set_incoming cn rest) (ev ++ map Received (ls ++ [bad]))))
  \/ (forallb is_data (incoming cn) = true
      /\ readAttrs (connected cn ev)
         = (Ret (None, Some EOF),
            connected (set_incoming cn []) (ev ++ map Received (incoming cn)))).
Proof.
  destruct (flat_block_cases (incoming cn))
    as [(ls & rest & Hin & Hls) | [(ls & bad & rest & Hin & Hls & Hb & Hz) | Hall]].
  - left. exists ls, rest. repeat split; try assumption. now apply readAttrs_OK.
  - right; left. exists ls, bad, rest. repeat split; try assumption.
    now apply readAttrs_malformed.
  - right; right. split; [assumption|]. now apply readAttrs_EOF.
Qed.

(** *** What a decoded map holds *)

Lemma last_cons_some {A : Type} (x : A) (l : list A) :
  last (x :: l) = match last l with Some y => Some y | None => Some x end.
Proof. destruct l as [|y l]; [reflexivity|]. simpl. destruct (last (y :: l)) eqn:H; [reflexivity|].
  now apply last_None in H. Qed.

Lemma attrs_of_lookup (ls : list string) (m : gmap string string) (k : string) :
  attrs_of ls m !! k
  = match last (map value_of (List.filter (fun l => String.eqb (key_of l) k) ls)) with
    | Some v => Some v
    | None => m !! k
    end.
Proof.
  revert m; induction ls as [|l ls IH]; intros m; [reflexivity|].
  unfold attrs_of in *. cbn [foldl List.filter]. rewrite IH.
  destruct (String.eqb (key_of l) k) eqn:Hk.
  - apply String.eqb_eq in Hk. cbn [map]. rewrite last_cons_some.
    destruct (last _); [reflexivity|]. subst k. apply lookup_insert_eq.
  - apply String.eqb_neq in Hk.
    destruct (last _); [reflexivity|]. now apply lookup_insert_ne.
Qed.

(** X5: in the map [readAttrs] returns, a key holds the value of the last
    line that had this key (a later line silently replaces an earlier
    one), and a key no line had is absent. *)
Theorem readAttrs_last_value_wins (cn : Conn) (ev : list event)
    (ls rest : list string) (k : string) :
  forallb is_data ls = true -> incoming cn = ls ++ "OK" :: rest ->
  exists m,
    fst (readAttrs (connected cn ev)) = Ret (Some m, None)
    /\ m !! k = last (map value_of
                        (List.filter (fun l => String.eqb (key_of l) k) ls)).
Proof.
  intros Hls Hin. exists (attrs_of ls ∅).
  rewrite (readAttrs_OK cn ev ls rest Hls Hin). split; [reflexivity|].
  rewrite attrs_of_lookup. destruct (last _); [reflexivity|apply lookup_empty].
Qed.

Lemma readAttrs_last_value_wins_witness :
  exists m,
    fst (readAttrs (connected (mkConn ["volume: 10"; "state: play"; "volume: 90"; "OK"]
                                 None None 0 0) []))
    = Ret (Some m, None)
    /\ m !! "volume" = Some "90".
Proof.
  apply (readAttrs_last_value_wins
           (mkConn ["volume: 10"; "state: play"; "volume: 90"; "OK"] None None 0 0)
           [] ["volume: 10"; "state: play"; "volume: 90"] [] "volume" eq_refl eq_refl).
Defined.

(** *** Key, value and line *)

Lemma index_sep_append (k v : string) :
  String.index 0 ": " k = None ->
  String.index 0 ": " (k +:+ ": " +:+ v) = Some (String.length k).
Proof.
  induction k as [|c k IH].
  - intros _. destruct v; reflexivity.
  - cbn [String.index String.append String.length]. cbn [String.append] in IH.
    destruct (String.prefix ": " (String c k)) eqn:Hp; [discriminate|].
    destruct (String.index 0 ": " k) eqn:Hi; [discriminate|].
    intros _.
    change (String c k +:+ ": " +:+ v) with (String c (k +:+ ": " +:+ v)).
    cbn [String.index]. rewrite (IH eq_refl).
    match goal with |- (if ?p then _ else _) = _ => replace p with false end;
      [reflexivity|].
    symmetry. cbn [String.prefix] in Hp |- *.
    destruct (ascii_dec ":" c); [|reflexivity].
    destruct k as [|d k]; [reflexivity|].
    change (String d k +:+ ": " +:+ v) with (String d (k +:+ ": " +:+ v)).
    cbn [String.prefix] in Hp |- *.
    destruct (ascii_dec " " d); [|reflexivity].
    destruct k; discriminate.
Qed.

Lemma length_append (k s : string) :
  String.length (k +:+ s) = (String.length k + String.length s)%nat.
Proof. induction k as [|c k IH]; simpl; [reflexivity|now rewrite IH]. Qed.

Lemma substring_whole (v : string) : String.substring 0 (String.length v) v = v.
Proof. induction v as [|c v IH]; simpl; [reflexivity|now rewrite IH]. Qed.

Lemma substring_append_left (k s : string) :
  String.substring 0 (String.length k) (k +:+ s) = k.
Proof.
  induction k as [|c k IH]; simpl; [destruct s; reflexivity|now rewrite IH].
Qed.

Lemma substring_append_right (k s : string) (n m : nat) :
  String.substring (String.length k + n) m (k +:+ s) = String.substring n m s.
Proof. induction k as [|c k IH]; simpl; [reflexivity|exact IH]. Qed.

Lemma data_line_cut (k v : string) :
  Index k ": " < 0 ->
  is_data (k +:+ ": " +:+ v) = true
  /\ key_of (k +:+ ": " +:+ v) = k
  /\ value_of (k +:+ ": " +:+ v) = v.
Proof.
  unfold Index at 1. destruct (String.index 0 ": " k) as [n|] eqn:Hk; [lia|]. intros _.
  pose proof (index_sep_append k v Hk) as Hi.
  assert (Index (k +:+ ": " +:+ v) ": " = Z.of_nat (String.length k)) as Hz
    by (unfold Index; now rewrite Hi).
  split; [|split].
  - unfold is_data. rewrite Hz.
    replace (0 <=? Z.of_nat (String.length k)) with true by (symmetry; apply Z.leb_le; lia).
    rewrite andb_true_r. apply negb_true_iff, String.eqb_neq. intros Heq.
    rewrite Heq in Hi. discriminate Hi.
  - unfold key_of. rewrite Hz, Nat2Z.id. apply substring_append_left.
  - unfold value_of, len. rewrite Hz, !length_append.
    replace (Z.to_nat (Z.of_nat (String.length k) + 2))
      with (String.length k + 2)%nat by lia.
    rewrite substring_append_right.
    match goal with |- String.substring 2 ?n _ = _ =>
      replace n with (String.length v) by (simpl String.length; lia) end.
    simpl. apply substring_whole.
Qed.

(** X6: decoding inverts the line format [key: value].  For keys that do
    not contain [": "] and values of any content (empty, with [": "]
    inside, even the text [OK]), the lines [key: value] followed by [OK]
    decode to the map that results from setting each key to its value in
    the order of the lines. *)
Theorem readAttrs_round_trip (cn : Conn) (ev : list event)
    (kvs : list (string * string)) (rest : list string) :
  Forall (fun kv => Index (fst kv) ": " < 0) kvs ->
  incoming cn = map (fun kv => fst kv +:+ ": " +:+ snd kv) kvs ++ "OK" :: rest ->
  readAttrs (connected cn ev)
  = (Ret (Some (foldl (fun m kv => <[fst kv := snd kv]> m) ∅ kvs), None),
     connected (set_incoming cn rest)
       (ev ++ map Received
                (map (fun kv => fst kv +:+ ": " +:+ snd kv) kvs ++ ["OK"]))).
Proof.
  intros Hk Hin.
  assert (forallb is_data (map (fun kv => fst kv +:+ ": " +:+ snd kv) kvs) = true) as Hd.
  { clear Hin. induction Hk as [|[k v] kvs Hkv _ IH]; [reflexivity|]. simpl.
    destruct (data_line_cut k v Hkv) as (-> & _). exact IH. }
  rewrite (readAttrs_OK cn ev _ rest Hd Hin). do 3 f_equal.
  unfold attrs_of. clear Hin Hd. generalize (∅ : gmap string string).
  induction Hk as [|[k v] kvs Hkv _ IH]; intros m; [reflexivity|]. simpl.
  destruct (data_line_cut k v Hkv) as (_ & -> & ->). apply IH.
Qed.

Lemma readAttrs_round_trip_witness :
  fst (readAttrs (connected (mkConn ["Title: Intro: Part 1"; "Artist: OK"; "OK"]
                               None None 0 0) []))
  = Ret (Some (<["Artist" := "OK"]> {["Title" := "Intro: Part 1"]}), None).
Proof.
  rewrite (readAttrs_round_trip
             (mkConn ["Title: Intro: Part 1"; "Artist: OK"; "OK"] None None 0 0) []
             [("Title", "Intro: Part 1"); ("Artist", "OK")] []);
    [reflexivity| |reflexivity].
  repeat constructor; vm_compute; reflexivity.
Defined.

(** *** The record decoder on every input *)

Lemma lines_of_snoc (es : list (string * list string)) (e : string * list string) :
  lines_of (es ++ [e]) = lines_of es ++ entry_lines e.
Proof. unfold lines_of. rewrite map_app, concat_app. simpl. now rewrite app_nil_r. Qed.

Lemma listing_block_cases (lines : list string) :
  exists es, forallb is_entry es = true /\
    ((exists rest, lines = lines_of es ++ "OK" :: rest)
     \/ (exists bad rest,
           lines = lines_of es ++ bad :: rest /\ String.eqb bad "OK" = false
           /\ (Index bad ": " < 0 \/ (es = [] /\ HasPrefix bad "file:" = false)))
     \/ lines = lines_of es).
Proof.
  induction lines as [|x lines' IH] using rev_ind.
  { exists []. split; [reflexivity|]. right; right; reflexivity. }
  destruct IH as (es & Hes & [(rest & ->) | [(bad & rest & -> & Hb & Hc) | ->]]).
  - exists es. split; [assumption|]. left. exists (rest ++ [x]).
    now rewrite <- app_assoc.
  - exists es. split; [assumption|]. right; left. exists bad, (rest ++ [x]).
    rewrite <- app_assoc. repeat split; assumption.
  - destruct (String.eqb x "OK") eqn:Hok.
    { apply String.eqb_eq in Hok as ->. exists es. split; [assumption|].
      left. exists []. reflexivity. }
    destruct (Z.ltb_spec (Index x ": ") 0) as [Hz|Hz].
    { exists es. split; [assumption|]. right; left. exists x, [].
      repeat split; auto. }
    assert (is_data x = true) as Hx
      by (unfold is_data; rewrite Hok; simpl; now apply Z.leb_le).
    destruct (HasPrefix x "file:") eqn:Hf.
    { exists (es ++ [(x, [])]). split.
      - rewrite forallb_app, Hes. unfold is_entry; simpl. now rewrite Hx, Hf.
      - right; right. now rewrite lines_of_snoc. }
    destruct es as [|[m fs] es0 _] using rev_ind.
    { exists []. split; [reflexivity|]. right; left. exists x, [].
      repeat split; auto. }
    exists (es0 ++ [(m, fs ++ [x])]).
    rewrite forallb_app in Hes. apply andb_true_iff in Hes as [Hes0 Hm].
    simpl in Hm. rewrite andb_true_r in Hm. unfold is_entry in Hm; simpl in Hm.
    apply andb_true_iff in Hm as [Hm Hfs]. split.
    + rewrite forallb_app, Hes0. unfold is_entry; simpl.
      rewrite Hm, forallb_app, Hfs. simpl. now rewrite Hx, Hf.
    + right; right. rewrite !lines_of_snoc. unfold entry_lines; simpl.
      now rewrite <- !app_assoc.
Qed.

Lemma readPlaylist_trichotomy (cn : Conn) (ev : list event) :
  exists es, forallb is_entry es = true /\
    ((exists rest,
        incoming cn = lines_of es ++ "OK" :: rest
        /\ readPlaylist (connected cn ev)
           = (Ret (Some (listing (map record_of es)), None),
              connected (set_incoming cn rest)
                (ev ++ map Received (lines_of es ++ ["OK"]))))
     \/ (exists bad rest,
           incoming cn = lines_of es ++ bad :: rest
           /\ String.eqb bad "OK" = false
           /\ (Index bad ": " < 0 \/ (es = [] /\ HasPrefix bad "file:" = false))
           /\ readPlaylist (connected cn ev)
              = (Ret (None,
                      Some (if HasPrefix bad "file:" || negb (length es =? 0)%nat
                            then cant_parse bad else unexpected bad)),
                 connected (set_incoming cn rest)
                   (ev ++ map Received (lines_of es ++ [bad]))))
     \/ (incoming cn = lines_of es
         /\ readPlaylist (connected cn ev)
            = (Ret (None, Some EOF),
               connected (set_incoming cn []) (ev ++ map Received (incoming cn))))).
Proof.
  destruct (listing_block_cases (incoming cn))
    as (es & Hes & [(rest & Hin) | [(bad & rest & Hin & Hb & Hc) | Hin]]);
    exists es; (split; [assumption|]).
  - left. exists rest. split; [assumption|]. now apply readPlaylist_OK.
  - right; left. exists bad, rest. repeat split; try assumption.
    destruct Hc as [Hz | [-> Hf]].
    + now apply readPlaylist_malformed.
    + rewrite Hf. unfold readPlaylist. rewrite read_loop_connected, Hin. simpl.
      rewrite readPlaylist_body_orphan by assumption. reflexivity.
  - right; right. split; [assumption|].
    unfold readPlaylist. rewrite read_loop_connected.
    rewrite Hin at 1. rewrite <- (app_nil_r (lines_of es)).
    rewrite readPlaylist_entries by assumption. rewrite Hin. reflexivity.
Qed.

(** X7: [readPlaylist] returns on every input, in one of three ways; the
    lines it reads always begin with a run of complete song entries (a
    line that begins with [file:], then lines with [": "] that do not).
    If [OK] follows the entries, it returns their records in order with a
    nil error.  If another line follows (one without [": "], or, before
    any entry, one that does not begin with [file:]), it returns a nil
    slice and a [ProtocolError] with that line, "unexpected: " when no
    record is open and "can't parse line: " otherwise.  If the lines run
    out, it returns a nil slice and [os.EOF].  It never panics on an index
    or a nil map and never returns records together with an error. *)
Theorem readPlaylist_cases (cn : Conn) (ev : list event) :
  exists es, forallb is_entry es = true /\
    ((exists rest,
        incoming cn = lines_of es ++ "OK" :: rest
        /\ readPlaylist (connected cn ev)
           = (Ret (Some (listing (map record_of es)), None),
              connected (set_incoming cn rest)
                (ev ++ map Received (lines_of es ++ ["OK"]))))
     \/ (exists bad rest,
           incoming cn = lines_of es ++ bad :: rest
           /\ String.eqb bad "OK" = false
           /\ (Index bad ": " < 0 \/ (es = [] /\ HasPrefix bad "file:" = false))
           /\ readPlaylist (connected cn ev)
              = (Ret (None,
                      Some (ProtocolError
                              ((if HasPrefix bad "file:" || negb (length es =? 0)%nat
                                then "can't parse line: " else "unexpected: ")
                               +:+ bad))),
                 connected (set_incoming cn rest)
                   (ev ++ map Received (lines_of es ++ [bad]))))
     \/ (incoming cn = lines_of es
         /\ readPlaylist (connected cn ev)
            = (Ret (None, Some EOF),
               connected (set_incoming cn []) (ev ++ map Received (incoming cn))))).
Proof.
  destruct (readPlaylist_trichotomy cn ev)
    as (es & Hes & [H | [(bad & rest & Hin & Hb & Hc & Hr) | H]]);
    exists es; (split; [assumption|]); [left; exact H| |right; right; exact H].
  right; left. exists bad, rest. repeat split; try assumption.
  rewrite Hr. destruct (_ || _); reflexivity.
Qed.

(** *** The records of a listing *)

Lemma attrs_of_nonempty (ls : list string) (m : gmap string string) :
  m <> ∅ -> attrs_of ls m <> ∅.
Proof.
  revert m; induction ls as [|l ls IH]; intros m Hm; [exact Hm|].
  unfold attrs_of in *. cbn [foldl]. apply IH, insert_non_empty.
Qed.

Lemma record_of_nonempty (e : string * list string) :
  exists m, record_of e = Some m /\ m <> ∅.
Proof.
  destruct e as [l fs]. eexists. split; [reflexivity|].
  unfold entry_lines, attrs_of; cbn [foldl fst snd].
  apply (attrs_of_nonempty fs), insert_non_empty.
Qed.

Lemma entry_lines_facts (e : string * list string) :
  is_entry e = true ->
  List.filter (fun l => HasPrefix l "file:") (entry_lines e) = [fst e]
  /\ forallb is_data (entry_lines e) = true.
Proof.
  destruct e as [l fs]. unfold is_entry, entry_lines; cbn [fst snd].
  rewrite !andb_true_iff. intros [[Hd Hf] Hfs]. cbn [List.filter forallb].
  rewrite Hf, Hd. clear Hd Hf.
  induction fs as [|x fs IH]; [split; reflexivity|].
  cbn [forallb] in Hfs. apply andb_true_iff in Hfs as [Hx Hfs].
  apply andb_true_iff in Hx as [Hxd Hxf]. apply negb_true_iff in Hxf.
  destruct (IH Hfs) as [IH1 IH2]. cbn [List.filter forallb].
  rewrite Hxf, Hxd. split; assumption.
Qed.

Lemma lines_of_facts (es : list (string * list string)) :
  forallb is_entry es = true ->
  length (List.filter (fun l => HasPrefix l "file:") (lines_of es)) = length es
  /\ forallb is_data (lines_of es) = true.
Proof.
  unfold lines_of. induction es as [|e es IH]; [split; reflexivity|].
  cbn [forallb map concat]. rewrite andb_true_iff. intros [He Hes].
  destruct (entry_lines_facts e He) as [Hf Hd]. destruct (IH Hes) as [IH1 IH2].
  rewrite List.filter_app, forallb_app, Hf, Hd, IH2, length_app, IH1.
  split; reflexivity.
Qed.

(** X8: whenever [readPlaylist] succeeds, the lines it has read are a block
    of lines with [": "] closed by [OK]; the slice has exactly one record
    for each line of the block that begins with [file:], and every record
    is a non-nil map with at least one entry. *)
Theorem readPlaylist_records (cn : Conn) (ev : list event) (s : slice) (w : World) :
  readPlaylist (connected cn ev) = (Ret (Some s, None), w) ->
  exists block rest,
    incoming cn = block ++ "OK" :: rest
    /\ forallb is_data block = true
    /\ w = connected (set_incoming cn rest) (ev ++ map Received (block ++ ["OK"]))
    /\ length (elems s)
       = length (List.filter (fun l => HasPrefix l "file:") block)
    /\ Forall (fun a : Attrs => exists m, a = Some m /\ m <> ∅) (elems s).
Proof.
  intros Hrp.
  destruct (readPlaylist_trichotomy cn ev)
    as (es & Hes & [(rest & Hin & Hr) | [(bad & rest & _ & _ & _ & Hr) | [_ Hr]]]);
    rewrite Hr in Hrp; try discriminate.
  injection Hrp as <- <-.
  destruct (lines_of_facts es Hes) as [Hcount Hdata].
  exists (lines_of es), rest. repeat split; try assumption.
  - rewrite elems_listing, length_map. now symmetry.
  - rewrite elems_listing. apply Forall_forall. intros a Ha.
    apply list_elem_of_In, in_map_iff in Ha as (e & <- & _).
    apply record_of_nonempty.
Qed.

Lemma readPlaylist_records_witness :
  exists block rest,
    ["file: a"; "Title: A"; "file: b"; "OK"; "more"] = block ++ "OK" :: rest
    /\ length (List.filter (fun l => HasPrefix l "file:") block) = 2%nat.
Proof.
  destruct (readPlaylist_records
              (mkConn ["file: a"; "Title: A"; "file: b"; "OK"; "more"] None None 0 0)
              [] _ _ eq_refl) as (block & rest & Hin & _ & _ & Hlen & _).
  exists block, rest. split; [exact Hin|]. rewrite <- Hlen. reflexivity.
Defined.

(** *** The session stays in step *)

Lemma only_reads_readAttrs : only_reads readAttrs.
Proof.
  intros cn ev.
  destruct (flat_block_cases (incoming cn))
    as [(ls & rest & Hin & Hls) | [(ls & bad & rest & Hin & Hls & Hb & Hz) | Hall]].
  - rewrite (readAttrs_OK cn ev ls rest Hls Hin).
    do 3 eexists. split; [reflexivity|split; discriminate].
  - rewrite (readAttrs_malformed cn ev ls rest bad Hls Hb Hz Hin).
    do 3 eexists. split; [reflexivity|split; discriminate].
  - rewrite (readAttrs_EOF cn ev Hall).
    do 3 eexists. split; [reflexivity|split; discriminate].
Qed.

Lemma only_reads_readPlaylist : only_reads readPlaylist.
Proof.
  intros cn ev.
  destruct (readPlaylist_trichotomy cn ev)
    as (es & _ & [(rest & _ & ->) | [(bad & rest & _ & _ & _ & ->) | [_ ->]]]);
    do 3 eexists; (split; [reflexivity|split; discriminate]).
Qed.

Lemma only_reads_readOKLine : only_reads readOKLine.
Proof.
  intros cn ev. unfold readOKLine, bind, call, ReadLine; simpl.
  destruct (incoming cn) as [|line rest] eqn:Hin; simpl.
  - exists (Ret (Some EOF)), [], ev. rewrite <- Hin.
    split; [destruct cn; reflexivity|split; discriminate].
  - destruct (String.eqb line "OK"); do 3 eexists;
      (split; [reflexivity|split; discriminate]).
Qed.

Lemma only_reads_bind {A B : Type} (m : M A) (k : A -> M B) :
  only_reads m ->
  (forall a w, exists o, k a w = (o, w) /\ o <> Block /\ o <> Panic OutOfSync) ->
  only_reads (bind m k).
Proof.
  intros Hm Hk cn ev. destruct (Hm cn ev) as (o & rest & ev' & Hrun & Hb & Hs).
  unfold bind. rewrite Hrun. destruct o as [a|p|]; [| |contradiction].
  - destruct (Hk a (connected (set_incoming cn rest) ev')) as (o' & -> & Hb' & Hs').
    exists o', rest, ev'. repeat split; assumption.
  - exists (Panic p), rest, ev'. repeat split; [discriminate|].
    intros [= ->]. now apply Hs.
Qed.

Lemma keeps_ready_ret {A : Type} (a : A) : keeps_ready (ret a).
Proof.
  intros cn ev Hr. exists (Ret a), cn, ev.
  repeat split; try discriminate; try apply Hr.
Qed.

Lemma keeps_ready_bind {A B : Type} (m : M A) (k : A -> M B) :
  keeps_ready m -> (forall a, keeps_ready (k a)) -> keeps_ready (bind m k).
Proof.
  intros Hm Hk cn ev Hr.
  destruct (Hm cn ev Hr) as (o & cn' & ev' & Hrun & Hb & Hs & Hr').
  unfold bind. rewrite Hrun. destruct o as [a|p|]; [| |contradiction].
  - apply Hk, Hr'.
  - exists (Panic p), cn', ev'. repeat split; try apply Hr'; [discriminate|].
    intros [= ->]. now apply Hs.
Qed.

Lemma bracket_keeps_ready {A : Type} (body : M A) (format : string)
    (args : list arg) (cn : Conn) (ev : list event) :
  only_reads body -> ready cn ->
  exists o cn' ev',
    bind (call' (StartResponse (next_id cn)))
         (fun _ => defer (call' (EndResponse (next_id cn))) body)
         (after_Cmd format args cn ev)
    = (o, connected cn' ev')
    /\ o <> Block /\ o <> Panic OutOfSync /\ ready cn'.
Proof.
  intros Hbody [Hw Hr]. unfold after_Cmd.
  destruct (Hbody (set_next_id cn (uint_succ (next_id cn))) (ev ++ [Sent format args]))
    as (o & rest & ev' & Hrun & Hb & Hs).
  rewrite (response_bracket body (next_id cn) _ _ _ _ o Hrun Hr Hr Hb).
  do 3 eexists. split; [reflexivity|]. repeat split; try assumption.
  simpl. now rewrite Hr.
Qed.

Lemma keeps_ready_okCmd (format : string) (args : list arg) :
  keeps_ready (okCmd format args).
Proof.
  intros cn ev Hr. unfold okCmd. rewrite bind_Cmd_ready by apply Hr.
  apply bracket_keeps_ready; [apply only_reads_readOKLine|exact Hr].
Qed.

Lemma only_reads_PlaylistInfo_body (start end_ : Z) :
  only_reads
    (bind readPlaylist
       (fun r => let '(pls, err) := r in
          if (match err with Some _ => true | None => false end)
             || (start <? 0) || (end_ <? 0)
          then ret (pls, err)
          else match reslice pls start end_ with
               | Some window => ret (window, None)
               | None => fun w => (Panic SliceBounds, w)
               end)).
Proof.
  apply only_reads_bind; [apply only_reads_readPlaylist|].
  intros [pls err] w.
  destruct (_ || _); [eexists; split; [reflexivity|split; discriminate]|].
  destruct (reslice pls start end_);
    eexists; (split; [reflexivity|split; discriminate]).
Qed.

Lemma only_reads_AddId_decode (Atoi : string -> Z * option errno) :
  only_reads (AddId_decode Atoi).
Proof.
  apply only_reads_bind; [apply only_reads_readAttrs|].
  intros [attrs [err|]] w; [eexists; split; [reflexivity|split; discriminate]|].
  destruct (lookup_ok attrs "Id");
    eexists; (split; [reflexivity|split; discriminate]).
Qed.

(** X9: the response sequencer never goes out of step.  Started on a
    connection that is ready for a command, each of [okCmd] (and with it
    every control command), [Status], [CurrentSong], [PlaylistInfo],
    [Delete], [Play] and [AddId] without a position returns or panics
    with the connection ready for the next command: it never waits for
    ever, [EndResponse] never panics with "out of sync", and the deferred
    [EndResponse] also runs when [PlaylistInfo] panics on its slice.  The
    same then holds for any sequence of such operations. *)
Theorem session_stays_ready :
  (forall format args, keeps_ready (okCmd format args))
  /\ keeps_ready Status
  /\ keeps_ready CurrentSong
  /\ (forall start end_, keeps_ready (PlaylistInfo start end_))
  /\ (forall start end_, keeps_ready (Delete start end_))
  /\ (forall pos, keeps_ready (Play pos))
  /\ (forall Atoi uri pos, pos < 0 -> keeps_ready (AddId Atoi uri pos))
  /\ (forall (A B : Type) (m : M A) (k : A -> M B),
        keeps_ready m -> (forall a, keeps_ready (k a)) -> keeps_ready (bind m k)).
Proof.
  split; [exact keeps_ready_okCmd|].
  split.
  { intros cn ev Hr. unfold Status. rewrite bind_Cmd_ready by apply Hr.
    apply bracket_keeps_ready; [apply only_reads_readAttrs|exact Hr]. }
  split.
  { intros cn ev Hr. unfold CurrentSong. rewrite bind_Cmd_ready by apply Hr.
    apply bracket_keeps_ready; [apply only_reads_readAttrs|exact Hr]. }
  split.
  { intros start end_ cn ev Hr. unfold PlaylistInfo.
    destruct ((start <? 0) && (0 <=? end_)); [now apply keeps_ready_ret|].
    destruct ((0 <=? start) && (end_ <? 0)); rewrite bind_Cmd_ready by apply Hr.
    - apply bracket_keeps_ready; [apply only_reads_readPlaylist|exact Hr].
    - apply bracket_keeps_ready; [apply only_reads_PlaylistInfo_body|exact Hr]. }
  split.
  { intros start end_. unfold Delete.
    destruct (start <? 0); [apply keeps_ready_ret|].
    destruct (end_ <? 0); apply keeps_ready_okCmd. }
  split.
  { intros pos. unfold Play. apply keeps_ready_bind; [|intros; apply keeps_ready_okCmd].
    destruct (pos <? 0); [|apply keeps_ready_ret].
    apply keeps_ready_bind; [apply keeps_ready_okCmd|intros; apply keeps_ready_ret]. }
  split; [|exact @keeps_ready_bind].
  intros Atoi uri pos Hpos cn ev Hr. unfold AddId.
  replace (0 <=? pos) with false by (symmetry; apply Z.leb_gt; lia).
  unfold bind at 1, ret. rewrite bind_Cmd_ready by apply Hr.
  apply bracket_keeps_ready; [apply only_reads_AddId_decode|exact Hr].
Qed.

Lemma session_stays_ready_witness :
  exists o cn' ev',
    bind Status (fun _ => PlaylistInfo 0 9)
      (connected (mkConn ["state: stop"; "OK"; "file: a"; "OK"] None None 0 0) [])
    = (o, connected cn' ev')
    /\ o <> Block /\ o <> Panic OutOfSync /\ ready cn'.
Proof.
  destruct session_stays_ready as (_ & HS & _ & HP & _ & _ & _ & Hbind).
  apply (Hbind _ _ Status (fun _ => PlaylistInfo 0 9) HS (fun _ => HP 0 9)).
  split; reflexivity.
Defined.

(** *** Queries *)

Lemma query_bracket {A : Type} (body : M A) (format : string) (args : list arg)
    (cn : Conn) (ev : list event) :
  only_reads body -> ready cn ->
  bind (call' (StartResponse (next_id cn)))
       (fun _ => defer (call' (EndResponse (next_id cn))) body)
       (after_Cmd format args cn ev)
  = (let (o, w) := body (after_Cmd format args cn ev) in (o, after_EndResponse w)).
Proof.
  intros Hbody [Hw Hr]. unfold after_Cmd.
  destruct (Hbody (set_next_id cn (uint_succ (next_id cn))) (ev ++ [Sent format args]))
    as (o & rest & ev' & Hrun & Hb & _).
  rewrite Hrun. now apply response_bracket.
Qed.

(** X10: [Status] and [CurrentSong] are one command followed by one flat
    decode.  On a ready connection each writes its command line ([status],
    [currentsong]), returns exactly what [readAttrs] returns on the lines
    that follow, and closes the response bracket whether the decode
    succeeded or failed; on a well-formed block they return its map and
    leave the connection ready with the lines after [OK] unread. *)
Theorem queries_decode_flat (cn : Conn) (ev : list event) :
  ready cn ->
  Status (connected cn ev)
  = (let (o, w) := readAttrs (after_Cmd "status" [] cn ev) in
     (o, after_EndResponse w))
  /\ CurrentSong (connected cn ev)
     = (let (o, w) := readAttrs (after_Cmd "currentsong" [] cn ev) in
        (o, after_EndResponse w))
  /\ (forall ls rest,
        forallb is_data ls = true -> incoming cn = ls ++ "OK" :: rest ->
        Status (connected cn ev)
        = (Ret (Some (attrs_of ls ∅), None),
           connected (answered cn rest)
             (ev ++ Sent "status" [] :: map Received (ls ++ ["OK"])))
        /\ CurrentSong (connected cn ev)
           = (Ret (Some (attrs_of ls ∅), None),
              connected (answered cn rest)
                (ev ++ Sent "currentsong" [] :: map Received (ls ++ ["OK"])))).
Proof.
  intros Hready.
  assert (forall format,
            bind (call (Cmd format []))
              (fun '(id, err) =>
                 match err with
                 | Some err => ret (None, Some err)
                 | None => bind (call' (StartResponse id))
                             (fun _ => defer (call' (EndResponse id)) readAttrs)
                 end) (connected cn ev)
            = (let (o, w) := readAttrs (after_Cmd format [] cn ev) in
               (o, after_EndResponse w))) as Hq.
  { intros format. rewrite bind_Cmd_ready by apply Hready.
    apply query_bracket; [apply only_reads_readAttrs|exact Hready]. }
  split; [apply Hq|]. split; [apply Hq|].
  intros ls rest Hls Hin.
  assert (forall format,
            (let (o, w) := readAttrs (after_Cmd format [] cn ev) in
             (o, after_EndResponse w))
            = (Ret (Some (attrs_of ls ∅), None),
               connected (answered cn rest)
                 (ev ++ Sent format [] :: map Received (ls ++ ["OK"])))) as Hrun.
  { intros format. unfold after_Cmd.
    rewrite (readAttrs_OK (set_next_id cn (uint_succ (next_id cn)))
               (ev ++ [Sent format []]) ls rest Hls Hin).
    unfold after_EndResponse, answered; simpl.
    destruct Hready as [_ ->]. rewrite <- app_assoc. reflexivity. }
  split.
  - unfold Status. rewrite Hq. apply Hrun.
  - unfold CurrentSong. rewrite Hq. apply Hrun.
Qed.

Lemma queries_decode_flat_witness :
  Status (connected (mkConn ["volume: 50"; "state: play"; "OK"; "x"] None None 4 4) [])
  = (Ret (Some (<["state" := "play"]> {["volume" := "50"]}), None),
     connected (mkConn ["x"] None None 5 5)
       [Sent "status" []; Received "volume: 50"; Received "state: play";
        Received "OK"]).
Proof.
  apply (proj1 (proj2 (proj2 (queries_decode_flat
                                (mkConn ["volume: 50"; "state: play"; "OK"; "x"]
                                   None None 4 4) [] (conj eq_refl eq_refl)))
                 ["volume: 50"; "state: play"] ["x"] eq_refl eq_refl)).
Defined.

(** *** A stream that cannot be written *)

(** X11: when the write of the command fails, every operation returns the
    write error at once (with a nil map or slice, and -1 from [AddId]):
    nothing is put on the wire and no line is read.  Each attempt still
    draws an id from the pipeline ([AddId] with a position draws two) and
    never opens its response bracket. *)
Theorem write_failure_is_returned (cn : Conn) (ev : list event) (e : error)
    (Atoi : string -> Z * option errno) :
  write_err cn = Some e ->
  let once := connected (set_next_id cn (uint_succ (next_id cn))) ev in
  let twice :=
    connected (set_next_id cn (uint_succ (uint_succ (next_id cn)))) ev in
  (forall format args, okCmd format args (connected cn ev) = (Ret (Some e), once))
  /\ Status (connected cn ev) = (Ret (None, Some e), once)
  /\ CurrentSong (connected cn ev) = (Ret (None, Some e), once)
  /\ (forall start end_, (0 <= start \/ end_ < 0) ->
        PlaylistInfo start end_ (connected cn ev) = (Ret (None, Some e), once))
  /\ (forall uri pos, pos < 0 ->
        AddId Atoi uri pos (connected cn ev) = (Ret (-1, Some e), once))
  /\ (forall uri pos, 0 <= pos ->
        AddId Atoi uri pos (connected cn ev) = (Ret (-1, Some e), twice)).
Proof.
  intros Hw once twice.
  assert (forall A format args (k : N * option error -> M A),
            bind (call (Cmd format args)) k (connected cn ev) = k (0%N, Some e) once)
    as Hcmd.
  { intros. unfold bind, call, Cmd, PrintfLine; simpl. rewrite Hw. reflexivity. }
  split; [intros; unfold okCmd; now rewrite Hcmd|].
  split; [unfold Status; now rewrite Hcmd|].
  split; [unfold CurrentSong; now rewrite Hcmd|].
  split.
  { intros start end_ Hse. unfold PlaylistInfo.
    replace ((start <? 0) && (0 <=? end_)) with false
      by (symmetry; rewrite andb_false_iff, Z.ltb_ge, Z.leb_gt; lia).
    destruct ((0 <=? start) && (end_ <? 0)); now rewrite Hcmd. }
  split.
  - intros uri pos Hpos. unfold AddId.
    replace (0 <=? pos) with false by (symmetry; apply Z.leb_gt; lia).
    unfold bind at 1, ret. now rewrite Hcmd.
  - intros uri pos Hpos. unfold AddId.
    replace (0 <=? pos) with true by (symmetry; apply Z.leb_le; lia).
    rewrite Hcmd. subst once. unfold bind, call, Cmd, PrintfLine; simpl.
    rewrite Hw. reflexivity.
Qed.

Lemma write_failure_is_returned_witness :
  AddId strconv.Atoi "song.ogg" 2
    (connected (mkConn ["Id: 1"; "OK"] (Some (OpError "broken pipe")) None 0 0) [])
  = (Ret (-1, Some (OpError "broken pipe")),
     connected (mkConn ["Id: 1"; "OK"] (Some (OpError "broken pipe")) None 2 0) []).
Proof.
  apply (proj2 (proj2 (proj2 (proj2 (proj2
           (write_failure_is_returned
              (mkConn ["Id: 1"; "OK"] (Some (OpError "broken pipe")) None 0 0) []
              (OpError "broken pipe") strconv.Atoi eq_refl)))))).
  lia.
Defined.

(** *** The handshake *)

Lemma greeting_test (line : string) :
  String.eqb (String.substring 0 6 line) "OK MPD" = HasPrefix line "OK MPD".
Proof.
  unfold HasPrefix.
  destruct (String.prefix "OK MPD" line) eqn:Hp.
  - apply String.prefix_correct in Hp. simpl String.length in Hp.
    rewrite Hp. reflexivity.
  - apply String.eqb_neq. intros Heq.
    assert (String.prefix "OK MPD" line = true) as Hp'
      by (apply String.prefix_correct; exact Heq).
    congruence.
Qed.

(** X12: [Dial] beyond the short greeting.  The error of the dial is
    returned as it is, with no client.  If the server delivers no line,
    the read error is returned.  A first line of six bytes or more is
    accepted exactly when it begins with [OK MPD]: then [Dial] returns a
    client that holds the connection with that one line consumed, and
    otherwise no client and the [ProtocolError] "no greeting".  Nothing is
    written in any case. *)
Theorem Dial_cases (net : Network) (network addr : string) (ev : list event) :
  (forall e, net network addr = inr e ->
     Dial net network addr ev = (Ret (None, Some e), ev))
  /\ (forall cn, net network addr = inl cn -> incoming cn = [] ->
        Dial net network addr ev = (Ret (None, Some EOF), ev))
  /\ (forall cn line rest,
        net network addr = inl cn -> incoming cn = line :: rest ->
        (6 <= String.length line)%nat ->
        Dial net network addr ev
        = (if HasPrefix line "OK MPD"
           then Ret (Some (mkClient (Some (set_incoming cn rest))), None)
           else Ret (None, Some (ProtocolError "no greeting")),
           ev ++ [Received line])).
Proof.
  split; [|split].
  - intros e Hnet. unfold Dial. now rewrite Hnet.
  - intros cn Hnet Hin. unfold Dial, ReadLine. now rewrite Hnet, Hin.
  - intros cn line rest Hnet Hin Hlen. unfold Dial, ReadLine. rewrite Hnet, Hin.
    unfold slice_str, len.
    replace (6 <=? Z.of_nat (String.length line)) with true
      by (symmetry; apply Z.leb_le; lia).
    cbn [Z.leb andb Z.sub Z.to_nat Z.compare Z.opp Z.add].
    change (Z.to_nat 0) with 0%nat. change (Pos.to_nat 6) with 6%nat.
    rewrite greeting_test. destruct (HasPrefix line "OK MPD"); reflexivity.
Qed.

Lemma Dial_cases_witness :
  Dial (fun _ _ => inl (mkConn ["OK MPD 0.16.0"; "x"] None None 0 0))
       "tcp" "127.0.0.1:6600" []
  = (Ret (Some (mkClient (Some (mkConn ["x"] None None 0 0))), None),
     [Received "OK MPD 0.16.0"]).
Proof.
  apply (proj2 (proj2 (Dial_cases
                         (fun _ _ => inl (mkConn ["OK MPD 0.16.0"; "x"] None None 0 0))
                         "tcp" "127.0.0.1:6600" []))
               (mkConn ["OK MPD 0.16.0"; "x"] None None 0 0) "OK MPD 0.16.0" ["x"]
               eq_refl eq_refl).
  simpl. lia.
Defined.

(** *** Failed decodes inside the operations *)

(** X13: when the decode of a listing fails, [PlaylistInfo] returns what
    [readPlaylist] returned, slice and error, and does not evaluate
    [pls[start:end]]: a bad response never turns into the slice panic,
    however large [start] and [end] are. *)
Theorem PlaylistInfo_passes_decode_error (cn : Conn) (ev : list event)
    (start end_ : Z) (pls : option slice) (e : error) (w : World) :
  ready cn -> 0 <= start \/ end_ < 0 ->
  readPlaylist
    (if (0 <=? start) && (end_ <? 0)
     then after_Cmd "playlistinfo %d" [ArgInt start] cn ev
     else after_Cmd "playlistinfo" [] cn ev)
  = (Ret (pls, Some e), w) ->
  PlaylistInfo start end_ (connected cn ev)
  = (Ret (pls, Some e), after_EndResponse w).
Proof.
  intros Hready Hse Hrp. unfold PlaylistInfo.
  replace ((start <? 0) && (0 <=? end_)) with false
    by (symmetry; rewrite andb_false_iff, Z.ltb_ge, Z.leb_gt; lia).
  destruct ((0 <=? start) && (end_ <? 0)); rewrite bind_Cmd_ready by apply Hready.
  - rewrite query_bracket; [|apply only_reads_readPlaylist|exact Hready].
    now rewrite Hrp.
  - rewrite query_bracket; [|apply only_reads_PlaylistInfo_body|exact Hready].
    unfold bind. rewrite Hrp. reflexivity.
Qed.

Lemma PlaylistInfo_passes_decode_error_witness :
  fst (PlaylistInfo 5 1000
         (connected (mkConn ["file: a"; "garbage"; "OK"] None None 0 0) []))
  = Ret (None, Some (ProtocolError "can't parse line: garbage")).
Proof.
  rewrite (PlaylistInfo_passes_decode_error
             (mkConn ["file: a"; "garbage"; "OK"] None None 0 0) [] 5 1000
             None (ProtocolError "can't parse line: garbage")
             (connected (mkConn ["OK"] None None 1 0)
                [Sent "playlistinfo" []; Received "file: a"; Received "garbage"])
             (conj eq_refl eq_refl) ltac:(left; lia) eq_refl).
  reflexivity.
Defined.

(** X14: [AddId] returns -1 with every error of its decode: on a ready
    connection and without a position, if [readAttrs] fails after the
    command has been written ([os.EOF], a line without [": "], an [ACK]
    line), [AddId] returns -1 and that error, does not look for [Id], and
    closes the response bracket. *)
Theorem AddId_passes_decode_error (Atoi : string -> Z * option errno)
    (cn : Conn) (ev : list event) (uri : string) (pos : Z)
    (attrs : Attrs) (e : error) (w : World) :
  ready cn -> pos < 0 ->
  readAttrs (after_Cmd "addid %q" [ArgString uri] cn ev) = (Ret (attrs, Some e), w) ->
  AddId Atoi uri pos (connected cn ev) = (Ret (-1, Some e), after_EndResponse w).
Proof.
  intros Hready Hpos Hra. unfold AddId.
  replace (0 <=? pos) with false by (symmetry; apply Z.leb_gt; lia).
  unfold bind at 1, ret. rewrite bind_Cmd_ready by apply Hready.
  rewrite query_bracket; [|apply only_reads_AddId_decode|exact Hready].
  unfold AddId_decode, bind. rewrite Hra. reflexivity.
Qed.

Lemma AddId_passes_decode_error_witness :
  fst (AddId strconv.Atoi "song.ogg" (-1)
         (connected (mkConn ["ACK [50@0] {addid} No such song"] None None 0 0) []))
  = Ret (-1, Some (ProtocolError "can't parse line: ACK [50@0] {addid} No such song")).
Proof.
  rewrite (AddId_passes_decode_error strconv.Atoi
             (mkConn ["ACK [50@0] {addid} No such song"] None None 0 0) []
             "song.ogg" (-1) None
             (ProtocolError "can't parse line: ACK [50@0] {addid} No such song")
             (connected (mkConn [] None None 1 0)
                [Sent "addid %q" [ArgString "song.ogg"];
                 Received "ACK [50@0] {addid} No such song"])
             (conj eq_refl eq_refl) ltac:(lia) eq_refl).
  reflexivity.
Defined.

(** *** What a failed command leaves in the stream *)

(** X15: a reader stops at the line it rejects and does not drain the
    rest of the response.  After [Status] has failed on a line without
    [": "], the next command takes the line that followed it in the same
    response as its own answer: an [OK] left behind makes the next control
    command succeed without its own response having been read. *)
Theorem failed_decode_leaves_lines (cn : Conn) (ev : list event)
    (bad l2 : string) (rest : list string) (format : string) (args : list arg) :
  ready cn -> String.eqb bad "OK" = false -> Index bad ": " < 0 ->
  incoming cn = bad :: l2 :: rest ->
  Status (connected cn ev)
  = (Ret (None, Some (ProtocolError ("can't parse line: " +:+ bad))),
     connected (answered cn (l2 :: rest)) (ev ++ [Sent "status" []; Received bad]))
  /\ bind Status (fun _ => okCmd format args) (connected cn ev)
     = (Ret (ok_or_unexpected l2),
        connected (answered (answered cn (l2 :: rest)) rest)
          (ev ++ [Sent "status" []; Received bad;
                  Sent format args; Received l2])).
Proof.
  intros Hready Hb Hz Hin.
  assert (Status (connected cn ev)
          = (Ret (None, Some (cant_parse bad)),
             connected (answered cn (l2 :: rest))
               (ev ++ [Sent "status" []; Received bad]))) as HS.
  { unfold Status. rewrite bind_Cmd_ready by apply Hready.
    rewrite query_bracket; [|apply only_reads_readAttrs|exact Hready].
    unfold after_Cmd.
    rewrite (readAttrs_malformed (set_next_id cn (uint_succ (next_id cn)))
               (ev ++ [Sent "status" []]) [] (l2 :: rest) bad eq_refl Hb Hz Hin).
    unfold after_EndResponse, answered; simpl.
    destruct Hready as [_ ->]. rewrite <- app_assoc. reflexivity. }
  split; [exact HS|].
  unfold bind. rewrite HS.
  rewrite (okCmd_line format args (answered cn (l2 :: rest)) _ l2 rest);
    [|apply ready_answered, Hready|reflexivity].
  rewrite <- app_assoc. reflexivity.
Qed.

Lemma failed_decode_leaves_lines_witness :
  bind Status (fun _ => Stop)
    (connected (mkConn ["garbage"; "OK"; "OK"] None None 0 0) [])
  = (Ret None,
     connected (mkConn ["OK"] None None 2 2)
       [Sent "status" []; Received "garbage"; Sent "stop" []; Received "OK"]).
Proof.
  apply (proj2 (failed_decode_leaves_lines
                  (mkConn ["garbage"; "OK"; "OK"] None None 0 0) []
                  "garbage" "OK" ["OK"] "stop" []
                  (conj eq_refl eq_refl) eq_refl ltac:(vm_compute; reflexivity)
                  eq_refl)).
Defined.

(** *** The file name of a record *)

Lemma follower_key_not_file (l : string) :
  is_data l = true -> HasPrefix l "file:" = false -> key_of l <> "file".
Proof.
  intros Hd Hf Hk. rewrite (key_file_is_marker l Hd Hk) in Hf. discriminate.
Qed.

Lemma attrs_of_followers_file (fs : list string) (m : gmap string string) :
  forallb (fun l => is_data l && negb (HasPrefix l "file:")) fs = true ->
  attrs_of fs m !! "file" = m !! "file".
Proof.
  revert m; induction fs as [|l fs IH]; intros m Hfs; [reflexivity|].
  cbn [forallb] in Hfs. apply andb_true_iff in Hfs as [Hl Hfs].
  apply andb_true_iff in Hl as [Hd Hf]. apply negb_true_iff in Hf.
  unfold attrs_of in *. cbn [foldl]. rewrite IH by assumption.
  apply lookup_insert_ne. now apply follower_key_not_file.
Qed.

(** X16: in a listing whose entries start with a line [file: name], the
    records keep the file names in order: the [file] attribute of the
    i-th record is the value of the i-th [file: ] line, and no later line
    of the entry can replace it, since a line with the key [file] always
    starts a new record. *)
Theorem records_keep_file_names (cn : Conn) (ev : list event)
    (es : list (string * list string)) (rest : list string) :
  forallb is_entry es = true ->
  Forall (fun e => key_of (fst e) = "file") es ->
  incoming cn = lines_of es ++ "OK" :: rest ->
  exists s,
    fst (readPlaylist (connected cn ev)) = Ret (Some s, None)
    /\ map (fun a => lookup_ok a "file") (elems s)
       = map (fun e => Some (value_of (fst e))) es.
Proof.
  intros Hes Hkeys Hin. exists (listing (map record_of es)).
  rewrite (readPlaylist_OK cn ev es rest Hes Hin). split; [reflexivity|].
  rewrite elems_listing, map_map. clear Hin.
  induction Hkeys as [|[l fs] es Hk _ IH]; [reflexivity|].
  cbn [forallb] in Hes. apply andb_true_iff in Hes as [He Hes].
  cbn [map]. rewrite (IH Hes). f_equal.
  unfold is_entry in He; cbn [fst snd] in He, Hk |- *.
  apply andb_true_iff in He as [_ Hfs].
  unfold record_of, entry_lines, lookup_ok; cbn [fst snd].
  change (attrs_of (l :: fs) ∅) with (attrs_of fs (<[key_of l := value_of l]> ∅)).
  rewrite (attrs_of_followers_file fs _ Hfs), Hk. apply lookup_insert_eq.
Qed.

Lemma records_keep_file_names_witness :
  exists s,
    fst (readPlaylist
           (connected (mkConn ["file: a.ogg"; "Title: file: b"; "file: c.ogg"; "OK"]
                         None None 0 0) []))
    = Ret (Some s, None)
    /\ map (fun a => lookup_ok a "file") (elems s) = [Some "a.ogg"; Some "c.ogg"].
Proof.
  apply (records_keep_file_names
           (mkConn ["file: a.ogg"; "Title: file: b"; "file: c.ogg"; "OK"] None None 0 0)
           [] [("file: a.ogg", ["Title: file: b"]); ("file: c.ogg", [])] []
           eq_refl).
  - repeat constructor.
  - reflexivity.
Defined.
